(** * pyvisauto: regions, matches, template search and polling

    A shallow embedding of [pyvisauto/__init__.py]: the [ImageMatch] base
    class with its two subclasses [Region] and [Match], the template search
    methods ([_match_template], [find], [find_all], [exists]), the polling
    loops ([wait], [wait_vanish]) and the pointer methods ([hover], [click]).

    The module calls into OpenCV, NumPy, pyautogui, [random], [time] and
    [datetime].  Those libraries are not part of the package: what they
    compute from the outside world (pixels, files, the clock, entropy, the
    correlation scores) is a field of [Env]; what the package relies on of
    their documented behaviour ([cv2.minMaxLoc], [numpy.where],
    [random.randint], indexing and [len]) is written out below.

    Scores are modelled as rationals: every finite floating-point score is
    one, and the code only compares and copies them.  The one rounding the
    code's comparisons involve, the cast of the threshold to float32 in
    [find_all], is written out; NaN and the arithmetic of the correlation
    itself are outside the model. *)

From Stdlib Require Import ZArith QArith Qround Qpower List Sorted String Bool.
From Stdlib Require Import Lia Lqa.
Import ListNotations.

Local Open Scope Z_scope.

(** ** Exceptions and results *)

(** The exceptions that the modelled code raises or lets through.  The
    message of an exception is not modelled. *)
Inductive Exn : Type :=
| FindFailed       (* raise FindFailed(...) *)
| VanishFailed     (* raise VanishFailed(...) *)
| ValueError       (* Region.__init__, random.randint on an empty range *)
| AttributeError   (* attribute access on None *)
| TypeError        (* None handed to len(), to indexing or to cv2 *)
| IndexError       (* sequence index out of range *)
| CvError          (* cv2.error, raised by the correlation engine *)
| HookError.       (* any exception raised by a user hook *)

Inductive Res (A : Type) : Type :=
| Ok (a : A)
| Raise (e : Exn).
Arguments Ok {A} a.
Arguments Raise {A} e.

(** The outcome of a call into OpenCV that fails with cv2.error or gives a
    value. *)
Definition cv_result {A} (o : option A) : Res A :=
  match o with
  | Some a => Ok a
  | None => Raise CvError
  end.

(** ** Images, score matrices, rectangles *)

(** A grayscale image: rows of pixels ([numpy.ndarray] of shape (h, w)). *)
Definition Gray : Type := list (list Z).
(** A colour capture as [numpy.array(PIL.Image)] gives it. *)
Definition RGB : Type := list (list (Z * Z * Z)).
(** The result of [cv2.matchTemplate]: rows of scores. *)
Definition Matrix : Type := list (list Q).
(** [pad] of [click]: (top, right, bottom, left). *)
Definition Pad : Type := (Z * Z * Z * Z)%type.

(** An instance of [ImageMatch].  [Region] and [Match] share the rectangle,
    the instance copy of [MOUSE_MOVE_SPEED] and the cached capture; a
    [Match] also has [name] and [similarity], kept in [ident]. *)
Record ImageMatch : Type := mkImageMatch {
  x : Z;
  y : Z;
  w : Z;
  h : Z;
  MOUSE_MOVE_SPEED : Q;
  _captured : option Gray;
  ident : option (string * Q)
}.

Definition name (m : ImageMatch) : option string := option_map fst (ident m).
Definition similarity (m : ImageMatch) : option Q := option_map snd (ident m).

Definition set_captured (g : option Gray) (s : ImageMatch) : ImageMatch :=
  mkImageMatch (x s) (y s) (w s) (h s) (MOUSE_MOVE_SPEED s) g (ident s).

Definition set_xy (nx ny : Z) (s : ImageMatch) : ImageMatch :=
  mkImageMatch nx ny (w s) (h s) (MOUSE_MOVE_SPEED s) (_captured s) (ident s).

(** ** The outside world *)

(** Calls that reach outside the process, in the order they are made
    (newest first in a trace). *)
Inductive Event : Type :=
| EvImread (path : string)
| EvScreenshot (rx ry rw rh : Z)
| EvNow
| EvSleep (seconds : Q)
| EvRandom
| EvMoveTo (px py : Z) (duration : Q)
| EvClick
| EvOverrideHover (px py : Z)
| EvHoverCallback (px py : Z)
| EvOverrideClick (px py : Z) (pad : Pad)
| EvClickCallback (px py : Z).

Section Model.

(** State of everything outside the process: the screen, the file system,
    the clock, the entropy pool. *)
Variable W : Type.

(** What the external libraries return. *)
Record Env : Type := mkEnv {
  (* cv2.imread(path, IMREAD_GRAYSCALE): None when the file is missing or
     cannot be decoded; it does not raise *)
  imread : string -> W -> option Gray;
  (* numpy.array(pyautogui.screenshot(region=(x, y, w, h))) *)
  screenshot : Z -> Z -> Z -> Z -> W -> RGB * W;
  (* cv2.cvtColor(_, COLOR_BGR2GRAY) *)
  cvtColor : RGB -> Gray;
  (* cv2.matchTemplate(image, templ, TM_CCOEFF_NORMED): None when the call
     fails with cv2.error *)
  matchTemplate : Gray -> Gray -> option Matrix;
  (* pyautogui.size() *)
  size : W -> Z * Z;
  (* datetime.now(), in microseconds *)
  now : W -> Z * W;
  (* time.sleep(seconds) *)
  sleep : Q -> W -> W;
  (* one draw from the entropy source of the random module *)
  getrandbits : W -> Z * W;
  (* pyautogui.moveTo(x, y, duration) *)
  moveTo : Z -> Z -> Q -> W -> W;
  (* pyautogui.click() *)
  mouse_click : W -> W
}.

(** The class attributes of [ImageMatch]; they are read at call time.  A
    hook receives the instance and the chosen point and may act on the
    outside world or raise. *)
Record Config : Type := mkConfig {
  cls_MOUSE_MOVE_SPEED : Q;
  SCAN_RATE : Q;
  override_hover_method : option (ImageMatch -> Z -> Z -> W -> Res unit * W);
  hover_callback : option (ImageMatch -> Z -> Z -> W -> Res unit * W);
  override_click_method :
    option (ImageMatch -> Z -> Z -> Pad -> W -> Res unit * W);
  click_callback : option (ImageMatch -> Z -> Z -> W -> Res unit * W)
}.

(** The state a method runs in: the instance it is called on, the outside
    world, and the trace of external calls made so far. *)
Record State : Type := mkState {
  self : ImageMatch;
  ext : W;
  trace : list Event
}.

(** ** A state and exception monad *)

Definition M (A : Type) : Type := State -> Res A * State.

Definition ret {A} (a : A) : M A := fun st => (Ok a, st).

Definition raise {A} (e : Exn) : M A := fun st => (Raise e, st).

Definition bind {A B} (c : M A) (k : A -> M B) : M B :=
  fun st =>
    match c st with
    | (Ok a, st') => k a st'
    | (Raise e, st') => (Raise e, st')
    end.

Definition lift {A} (r : Res A) : M A := fun st => (r, st).

Definition get_self : M ImageMatch := fun st => (Ok (self st), st).

Definition put_self (s : ImageMatch) : M unit :=
  fun st => (Ok tt, mkState s (ext st) (trace st)).

(** An external call: it reads and changes the outside world and is
    recorded in the trace. *)
Definition call {A} (ev : Event) (f : W -> A * W) : M A :=
  fun st =>
    let (a, e') := f (ext st) in
    (Ok a, mkState (self st) e' (ev :: trace st)).

(** A user hook: as [call], but it may raise. *)
Definition call_hook (ev : Event) (f : W -> Res unit * W) : M unit :=
  fun st =>
    let (r, e') := f (ext st) in
    (r, mkState (self st) e' (ev :: trace st)).

End Model.

Arguments imread {W}.
Arguments screenshot {W}.
Arguments cvtColor {W}.
Arguments matchTemplate {W}.
Arguments size {W}.
Arguments now {W}.
Arguments sleep {W}.
Arguments getrandbits {W}.
Arguments moveTo {W}.
Arguments mouse_click {W}.
Arguments cls_MOUSE_MOVE_SPEED {W}.
Arguments SCAN_RATE {W}.
Arguments override_hover_method {W}.
Arguments hover_callback {W}.
Arguments override_click_method {W}.
Arguments click_callback {W}.
Arguments mkState {W}.
Arguments self {W}.
Arguments ext {W}.
Arguments trace {W}.
Arguments ret {W A}.
Arguments raise {W A}.
Arguments bind {W A B}.
Arguments lift {W A}.
Arguments get_self {W}.
Arguments put_self {W}.
Arguments call {W A}.
Arguments call_hook {W}.

Declare Scope monad_scope.
Delimit Scope monad_scope with monad.
Notation "v <- c1 ;; c2" := (bind c1 (fun v => c2))
  (at level 61, c1 at next level, right associativity) : monad_scope.
Notation "c1 ;;; c2" := (bind c1 (fun _ => c2))
  (at level 61, right associativity) : monad_scope.

(** ** Library functions the package relies on *)

(** [a < b] on scores and on seconds. *)
Definition Qltb (a b : Q) : bool := negb (Qle_bool b a).

(** [seq[i]] on a Python sequence: a negative index counts from the end,
    an index outside [-len, len) raises IndexError. *)
Definition getitem {A} (l : list A) (i : Z) : Res A :=
  let n := Z.of_nat (List.length l) in
  let j := if i <? 0 then n + i else i in
  if (j <? 0) || (n <=? j) then Raise IndexError
  else match nth_error l (Z.to_nat j) with
       | Some a => Ok a
       | None => Raise IndexError
       end.

Definition len {A} (l : list A) : Z := Z.of_nat (List.length l).

(** The cells of one row from column [c] on, as (row, col, score). *)
Fixpoint row_cells (r c : Z) (row : list Q) : list (Z * Z * Q) :=
  match row with
  | [] => []
  | v :: rest => (r, c, v) :: row_cells r (c + 1) rest
  end.

(** The cells of a matrix in row-major order, rows numbered from [r]. *)
Fixpoint cells_from (r : Z) (m : Matrix) : list (Z * Z * Q) :=
  match m with
  | [] => []
  | row :: rest => row_cells r 0 row ++ cells_from (r + 1) rest
  end.

Definition cells (m : Matrix) : list (Z * Z * Q) := cells_from 0 m.

(** One step of the extremum scan of [cv2.minMaxLoc]: a cell replaces the
    running extremum only when it is strictly beyond it, so the first
    occurrence in row-major order is kept. *)
Definition scan_max (best : Z * Z * Q) (cell : Z * Z * Q) : Z * Z * Q :=
  if Qltb (snd best) (snd cell) then cell else best.
Definition scan_min (best : Z * Z * Q) (cell : Z * Z * Q) : Z * Z * Q :=
  if Qltb (snd cell) (snd best) then cell else best.

(** [cv2.minMaxLoc(m)] = (min_val, max_val, min_loc, max_loc), a location
    being (x, y) = (col, row).  On a matrix without cells OpenCV reports
    the values 0 and the locations (-1, -1). *)
Definition minMaxLoc (m : Matrix) : Q * Q * (Z * Z) * (Z * Z) :=
  match cells m with
  | [] => (0%Q, 0%Q, (-1, -1), (-1, -1))
  | c0 :: rest =>
      let '(rmin, cmin, vmin) := fold_left scan_min rest c0 in
      let '(rmax, cmax, vmax) := fold_left scan_max rest c0 in
      (vmin, vmax, (cmin, rmin), (cmax, rmax))
  end.

(** *** Single precision

    The matrix of [cv2.matchTemplate] is a float32 array.  NumPy compares
    such an array with a Python float in float32: the float is cast to
    single precision first (to nearest, ties to even; beyond the largest
    finite value it becomes an infinity). *)

(** A rational rounded to the nearest integer, ties to the even one. *)
Definition Qround_even (q : Q) : Z :=
  let f := Qfloor q in
  match (q - inject_Z f ?= 1 # 2)%Q with
  | Lt => f
  | Gt => f + 1
  | Eq => if Z.even f then f else f + 1
  end.

(** The exponent of the power of two at or just below a positive
    rational. *)
Definition binade (q : Q) : Z :=
  let k := Z.log2 (Qnum q) - Z.log2 (Zpos (Qden q)) in
  if Qle_bool (2 ^ k) q then k else k - 1.

(** A rational that is not negative, rounded to 24 significant bits with
    exponents from -126 on (below that the spacing stays 2^-149) and no
    upper limit on the exponent. *)
Definition round_single_abs (a : Q) : Q :=
  let u := Z.max (binade a) (-126) - 23 in
  (inject_Z (Qround_even (a / 2 ^ u)) * 2 ^ u)%Q.

Definition round_single (q : Q) : Q :=
  if Qle_bool 0 q then round_single_abs q else (- round_single_abs (- q))%Q.

(** What the cast of a Python float to float32 gives. *)
Inductive Single : Type :=
| Finite (v : Q)
| PlusInf
| MinusInf.

Definition to_float32 (q : Q) : Single :=
  let r := round_single q in
  if Qle_bool (2 ^ 128) r then PlusInf
  else if Qle_bool r (- 2 ^ 128) then MinusInf
  else Finite r.

(** [score >= threshold] for a score of the matrix and a threshold that
    has been cast. *)
Definition ge_float32 (score : Q) (threshold : Single) : bool :=
  match threshold with
  | Finite t => Qle_bool t score
  | PlusInf => false
  | MinusInf => true
  end.

(** [numpy.where(matches >= similarity)]: the array of row indices and the
    array of column indices of the cells that pass, in row-major order.
    The comparison is made in float32. *)
Definition np_where_ge (m : Matrix) (similarity : Q) : list Z * list Z :=
  let hits :=
    filter (fun cell => ge_float32 (snd cell) (to_float32 similarity))
           (cells m) in
  (map (fun cell => fst (fst cell)) hits, map (fun cell => snd (fst cell)) hits).

(** [random.randint(a, b)]: an integer N with a <= N <= b drawn from the
    entropy source; ValueError when the range is empty. *)
Definition randint {W} (E : Env W) (a b : Z) : M W Z :=
  if b <? a then raise ValueError
  else (bits <- call EvRandom (getrandbits E) ;;
        ret (a + bits mod (b - a + 1)))%monad.

(** [time.sleep(seconds)]: a negative length is refused with ValueError
    before anything happens. *)
Definition time_sleep {W} (E : Env W) (seconds : Q) : M W unit :=
  if Qltb seconds 0 then raise ValueError
  else call (EvSleep seconds) (fun e => (tt, sleep E seconds e)).

(** [timedelta.total_seconds()] of a difference given in microseconds. *)
Definition total_seconds (microseconds : Z) : Q := microseconds # 1000000.

(** ** class ImageMatch *)

Section ImageMatch.

Variable W : Type.
Variable E : Env W.
Variable cfg : Config W.

Local Open Scope monad_scope.

(** [_capture]: a screenshot of the instance's rectangle. *)
Definition _capture : M W RGB :=
  s <- get_self ;;
  call (EvScreenshot (x s) (y s) (w s) (h s))
       (screenshot E (x s) (y s) (w s) (h s)).

(** [cv2.imread(target, cv2.IMREAD_GRAYSCALE)]. *)
Definition cv2_imread (target : string) : M W (option Gray) :=
  call (EvImread target) (fun e => (imread E target e, e)).

(** [cv2.matchTemplate(self._captured, template, cv2.TM_CCOEFF_NORMED)];
    an image that is None is refused by the binding. *)
Definition cv2_matchTemplate (captured : option Gray) (template : Gray)
  : M W Matrix :=
  match captured with
  | None => raise TypeError
  | Some g => lift (cv_result (matchTemplate E g template))
  end.

Definition is_None {A} (o : option A) : bool :=
  match o with None => true | Some _ => false end.

(** [_match_template(target, template, cached)]. *)
Definition _match_template (target : string) (template : option Gray)
    (cached : bool) : M W Matrix :=
  template <- (if is_None template then cv2_imread target
               else ret template) ;;
  (* template.shape[::-1] *)
  match template with
  | None => raise AttributeError
  | Some t =>
      s <- get_self ;;
      (if negb cached || is_None (_captured s) then
         capture <- _capture ;;
         let capture_rgb := capture in
         s' <- get_self ;;
         put_self (set_captured (Some (cvtColor E capture_rgb)) s')
       else ret tt) ;;;
      s'' <- get_self ;;
      cv2_matchTemplate (_captured s'') t
  end.

(** [shift_region(new_x, new_y)]. *)
Definition shift_region (new_x new_y : Z) : M W unit :=
  s <- get_self ;;
  put_self (set_xy new_x new_y s).

(** [Match.__init__(name, x, y, w, h, similarity)]. *)
Definition Match (name : string) (mx my mw mh : Z) (sim : Q) : ImageMatch :=
  mkImageMatch mx my mw mh (cls_MOUSE_MOVE_SPEED cfg) None (Some (name, sim)).

(** [len(template[0])] and [len(template)] for the template as [find] and
    [find_all] hold it, which is whatever [cv2.imread] returned. *)
Definition len_row0 (template : option Gray) : Res Z :=
  match template with
  | None => Raise TypeError
  | Some t => match getitem t 0 with
              | Ok row => Ok (len row)
              | Raise e => Raise e
              end
  end.

Definition len_rows (template : option Gray) : Res Z :=
  match template with
  | None => Raise TypeError
  | Some t => Ok (len t)
  end.

(** [find(target, similarity, cached)]. *)
Definition find (target : string) (similarity : Q) (cached : bool)
  : M W ImageMatch :=
  template <- cv2_imread target ;;
  match_ <- _match_template target template cached ;;
  let '(min_val, max_val, min_loc, max_loc) := minMaxLoc match_ in
  if Qltb max_val similarity then raise FindFailed
  else
    s <- get_self ;;
    tw <- lift (len_row0 template) ;;
    th <- lift (len_rows template) ;;
    ret (Match target (x s + fst max_loc) (y s + snd max_loc) tw th max_val).

(** The loop of [find_all]: it runs over the zip of the two index arrays
    of [matches_filtered] taken in reverse, so over the pairs (col, row). *)
Fixpoint find_all_loop (target : string) (template : option Gray)
    (matches : Matrix) (pairs : list (Z * Z)) (match_list : list ImageMatch)
  : M W (list ImageMatch) :=
  match pairs with
  | [] => ret match_list
  | match_ :: rest =>
      s <- get_self ;;
      tw <- lift (len_row0 template) ;;
      th <- lift (len_rows template) ;;
      row <- lift (getitem matches (snd match_)) ;;
      score <- lift (getitem row (fst match_)) ;;
      find_all_loop target template matches rest
        (match_list ++
         [Match target (x s + fst match_) (y s + snd match_) tw th score])
  end.

(** [find_all(target, similarity, cached)]. *)
Definition find_all (target : string) (similarity : Q) (cached : bool)
  : M W (list ImageMatch) :=
  template <- cv2_imread target ;;
  matches <- _match_template target template cached ;;
  let matches_filtered := np_where_ge matches similarity in
  find_all_loop target template matches
    (combine (snd matches_filtered) (fst matches_filtered)) [].

(** [exists(target, similarity, cached)]. *)
Definition exists_ (target : string) (similarity : Q) (cached : bool)
  : M W bool :=
  match_ <- _match_template target None cached ;;
  let '(min_val, max_val, min_loc, max_loc) := minMaxLoc match_ in
  if Qltb max_val similarity then ret false
  else ret true.

(** A loop that may run forever is given fuel; [None] is "out of fuel". *)
Definition MF (A : Type) : Type := State W -> option (Res A * State W).

(** The [while] loop of [wait]; [start] and [now_] are in microseconds. *)
Fixpoint wait_loop (fuel : nat) (target : string) (wait similarity : Q)
    (start now_ : Z) : MF ImageMatch :=
  fun st =>
    match fuel with
    | O => None
    | S fuel' =>
        if Qltb (total_seconds (now_ - start)) wait then
          match find target similarity false st with
          | (Ok match_, st1) => Some (Ok match_, st1)
          | (Raise FindFailed, st1) =>
              match (time_sleep E (SCAN_RATE cfg) ;;;
                     call EvNow (now E)) st1 with
              | (Ok now', st2) =>
                  wait_loop fuel' target wait similarity start now' st2
              | (Raise e, st2) => Some (Raise e, st2)
              end
          | (Raise e, st1) => Some (Raise e, st1)
          end
        else Some (Raise FindFailed, st)
    end.

(** [wait(target, wait, similarity)]. *)
Definition wait (fuel : nat) (target : string) (wait_ similarity : Q)
  : MF ImageMatch :=
  fun st =>
    match (start <- call EvNow (now E) ;;
           now_ <- call EvNow (now E) ;;
           ret (start, now_)) st with
    | (Ok (start, now_), st1) =>
        wait_loop fuel target wait_ similarity start now_ st1
    | (Raise e, st1) => Some (Raise e, st1)
    end.

(** The [while] loop of [wait_vanish]. *)
Fixpoint wait_vanish_loop (fuel : nat) (target : string) (wait similarity : Q)
    (start now_ : Z) : MF bool :=
  fun st =>
    match fuel with
    | O => None
    | S fuel' =>
        if Qltb (total_seconds (now_ - start)) wait then
          match exists_ target similarity false st with
          | (Ok false, st1) => Some (Ok true, st1)
          | (Ok true, st1) =>
              match (time_sleep E (SCAN_RATE cfg) ;;;
                     call EvNow (now E)) st1 with
              | (Ok now', st2) =>
                  wait_vanish_loop fuel' target wait similarity start now' st2
              | (Raise e, st2) => Some (Raise e, st2)
              end
          | (Raise e, st1) => Some (Raise e, st1)
          end
        else Some (Raise VanishFailed, st)
    end.

(** [wait_vanish(target, wait, similarity)]. *)
Definition wait_vanish (fuel : nat) (target : string) (wait_ similarity : Q)
  : MF bool :=
  fun st =>
    match (start <- call EvNow (now E) ;;
           now_ <- call EvNow (now E) ;;
           ret (start, now_)) st with
    | (Ok (start, now_), st1) =>
        wait_vanish_loop fuel target wait_ similarity start now_ st1
    | (Raise e, st1) => Some (Raise e, st1)
    end.

(** Calling an optional hook slot, or the default action when it is empty. *)
Definition run_hook (slot : option (W -> Res unit * W)) (ev : Event)
    (default : M W unit) : M W unit :=
  match slot with
  | Some f => call_hook ev f
  | None => default
  end.

(** [hover()]. *)
Definition hover : M W unit :=
  s <- get_self ;;
  px <- randint E (x s) (x s + w s) ;;
  py <- randint E (y s) (y s + h s) ;;
  run_hook (option_map (fun f => f s px py) (override_hover_method cfg))
           (EvOverrideHover px py)
           (call (EvMoveTo px py (MOUSE_MOVE_SPEED s))
                 (fun e => (tt, moveTo E px py (MOUSE_MOVE_SPEED s) e))) ;;;
  run_hook (option_map (fun f => f s px py) (hover_callback cfg))
           (EvHoverCallback px py)
           (ret tt).

(** [click(pad)], with [pad] = (top, right, bottom, left). *)
Definition click (pad : Pad) : M W unit :=
  let '(pad0, pad1, pad2, pad3) := pad in
  s <- get_self ;;
  px <- randint E (x s - pad3) (x s + w s + pad1) ;;
  py <- randint E (y s - pad0) (y s + h s + pad2) ;;
  run_hook (option_map (fun f => f s px py pad) (override_click_method cfg))
           (EvOverrideClick px py pad)
           (call (EvMoveTo px py (MOUSE_MOVE_SPEED s))
                 (fun e => (tt, moveTo E px py (MOUSE_MOVE_SPEED s) e)) ;;;
            call EvClick (fun e => (tt, mouse_click E e))) ;;;
  run_hook (option_map (fun f => f s px py) (click_callback cfg))
           (EvClickCallback px py)
           (ret tt).

(** [Region.__init__(x, y, w, h)]; an argument left out is [None]. *)
Definition Region (ax ay aw ah : option Z) (e : W) : Res ImageMatch :=
  match ax, ay, aw, ah with
  | None, None, None, None =>
      let screen := size E e in
      Ok (mkImageMatch 0 0 (fst screen) (snd screen)
            (cls_MOUSE_MOVE_SPEED cfg) None None)
  | Some vx, Some vy, Some vw, Some vh =>
      Ok (mkImageMatch vx vy vw vh (cls_MOUSE_MOVE_SPEED cfg) None None)
  | _, _, _, _ => Raise ValueError
  end.

End ImageMatch.

Arguments _capture {W}.
Arguments cv2_imread {W}.
Arguments cv2_matchTemplate {W}.
Arguments _match_template {W}.
Arguments shift_region {W}.
Arguments Match {W}.
Arguments find {W}.
Arguments find_all_loop {W}.
Arguments find_all {W}.
Arguments exists_ {W}.
Arguments wait_loop {W}.
Arguments wait {W}.
Arguments wait_vanish_loop {W}.
Arguments wait_vanish {W}.
Arguments hover {W}.
Arguments click {W}.
Arguments Region {W}.

(** ** Vocabulary of the statements *)

(** The score of cell (row [r], column [c]) of a matrix, when it has one. *)
Definition cell (m : Matrix) (r c : Z) : option Q :=
  if (r <? 0) || (c <? 0) then None
  else match nth_error m (Z.to_nat r) with
       | Some row => nth_error row (Z.to_nat c)
       | None => None
       end.

(** Height and width of an image. *)
Definition height (g : Gray) : Z := len g.
Definition width (g : Gray) : Z := len (hd [] g).

(** The maximum that [cv2.minMaxLoc] reports. *)
Definition max_val (m : Matrix) : Q := snd (fst (fst (minMaxLoc m))).

(** The state once an external call that leaves the world as it is has
    been recorded. *)
Definition logged {W} (ev : Event) (st : State W) : State W :=
  mkState (self st) (ext st) (ev :: trace st).

(** The grayscale image a fresh capture taken in state [st] gives. *)
Definition fresh_capture {W} (E : Env W) (st : State W) : Gray :=
  cvtColor E (fst (screenshot E (x (self st)) (y (self st))
                                (w (self st)) (h (self st)) (ext st))).

(** The state right after a fresh capture was taken and stored. *)
Definition refreshed {W} (E : Env W) (st : State W) : State W :=
  mkState (set_captured (Some (fresh_capture E st)) (self st))
          (snd (screenshot E (x (self st)) (y (self st))
                             (w (self st)) (h (self st)) (ext st)))
          (EvScreenshot (x (self st)) (y (self st)) (w (self st)) (h (self st))
             :: trace st).

(** The capture a search started in state [st] correlates against: the
    cached one when [cached] is set and a capture is held, a fresh one
    otherwise. *)
Definition capture_used {W} (E : Env W) (cached : bool) (st : State W)
  : Gray :=
  match (if cached then _captured (self st) else None) with
  | Some g => g
  | None => fresh_capture E st
  end.

(** A threshold that is a single-precision value: the cast to float32
    leaves it as it is. *)
Definition single_exact (q : Q) : Prop :=
  exists v, to_float32 q = Finite v /\ (v == q)%Q.

(** Counting the events of one kind in a trace. *)
Definition is_sleep (ev : Event) : bool :=
  match ev with EvSleep _ => true | _ => false end.
Definition is_now (ev : Event) : bool :=
  match ev with EvNow => true | _ => false end.
Definition count (kind : Event -> bool) (tr : list Event) : nat :=
  List.length (filter kind tr).


(** Two instances that differ at most in the capture they hold. *)
Definition same_but_capture (a b : ImageMatch) : Prop :=
  set_captured None a = set_captured None b.

(** Row-major order of two cells: by row, then by column. *)
Definition cell_before (a b : Z * Z * Q) : Prop :=
  fst (fst a) < fst (fst b) \/
  (fst (fst a) = fst (fst b) /\ snd (fst a) < snd (fst b)).

(** The Match that [find_all] builds for a cell (row, col, score), for a
    template [t] and the instance [s] it searches in. *)
Definition match_of_cell {W} (cfg : Config W) (target : string) (t : Gray)
    (s : ImageMatch) (cl : Z * Z * Q) : ImageMatch :=
  Match cfg target (x s + snd (fst cl)) (y s + fst (fst cl))
        (width t) (height t) (snd cl).

(** The time read after the pause between two polls, and the state then. *)
Definition paused {W} (E : Env W) (cfg : Config W) (st : State W)
  : Z * State W :=
  let e1 := sleep E (SCAN_RATE cfg) (ext st) in
  (fst (now E e1),
   mkState (self st) (snd (now E e1))
           (EvNow :: EvSleep (SCAN_RATE cfg) :: trace st)).

(** The two clock readings [wait] and [wait_vanish] start with, and the
    state after them. *)
Definition started {W} (E : Env W) (st : State W) : Z * Z * State W :=
  let e1 := snd (now E (ext st)) in
  (fst (now E (ext st)), fst (now E e1),
   mkState (self st) (snd (now E e1)) (EvNow :: EvNow :: trace st)).

(** Row-major order of two matches of one search: by row, then by column. *)
Definition scan_before (a b : ImageMatch) : Prop :=
  y a < y b \/ (y a = y b /\ x a < x b).

(** The point an event hands to the pointer or to a hook. *)
Definition point_of (ev : Event) : option (Z * Z) :=
  match ev with
  | EvMoveTo px py _ | EvOverrideHover px py | EvHoverCallback px py
  | EvOverrideClick px py _ | EvClickCallback px py => Some (px, py)
  | _ => None
  end.

Definition is_imread (ev : Event) : bool :=
  match ev with EvImread _ => true | _ => false end.
Definition is_screenshot (ev : Event) : bool :=
  match ev with EvScreenshot _ _ _ _ => true | _ => false end.

(** A search was attempted in a trace when a template was read or the
    screen was captured in it. *)
Definition search_attempts (tr : list Event) : nat :=
  List.length (filter is_imread tr) + List.length (filter is_screenshot tr).

(** ** A small concrete world

    Used to run the model on concrete inputs: a desk with a clock and a
    counter standing for the entropy pool, a 4 x 3 screen, and three image
    files. *)
Module Demo.

Record Desk : Type := mkDesk { clock : Z; entropy : Z }.

Definition button : Gray := [[10; 20]; [30; 40]].       (* 2 x 2 *)
Definition banner : Gray := [[1; 2; 3; 4; 5]].          (* 5 wide, 1 high *)
Definition poster : Gray :=                             (* 5 wide, 4 high *)
  [[1; 2; 3; 4; 5]; [1; 2; 3; 4; 5]; [1; 2; 3; 4; 5]; [1; 2; 3; 4; 5]].

Definition files (path : string) (_ : Desk) : option Gray :=
  if String.eqb path "button.png" then Some button
  else if String.eqb path "banner.png" then Some banner
  else if String.eqb path "poster.png" then Some poster
  else None.

(** A capture of [rw] x [rh] black pixels; taking it costs a millisecond. *)
Definition shot (rx ry rw rh : Z) (d : Desk) : RGB * Desk :=
  (repeat (repeat (0, 0, 0) (Z.to_nat rw)) (Z.to_nat rh),
   mkDesk (clock d + 1000) (entropy d)).

Definition to_gray (c : RGB) : Gray :=
  map (map (fun p => let '(r, g, b) := p in (r + g + b) / 3)) c.

(** Scores that peak with 9/10 at row 1, column 2. *)
Definition score (r c : nat) : Q :=
  (9 - 3 * Z.abs (Z.of_nat r - 1) - 2 * Z.abs (Z.of_nat c - 2)) # 10.

Definition tabulate (nr nc : nat) : Matrix :=
  map (fun r => map (fun c => score r c) (seq 0 nc)) (seq 0 nr).

(** The size rule of OpenCV's matchTemplate: when the image is smaller
    than the template in a dimension the two are swapped, which is only
    allowed when the image is no larger in the other dimension; otherwise
    the call fails.  The result has one cell per placement. *)
Definition correlate (img templ : Gray) : option Matrix :=
  let needswap :=
    (height img <? height templ) || (width img <? width templ) in
  if needswap &&
     negb ((height img <=? height templ) && (width img <=? width templ))
  then None
  else
    let (big, small) := if needswap then (templ, img) else (img, templ) in
    Some (tabulate (Z.to_nat (height big - height small + 1))
                 (Z.to_nat (width big - width small + 1))).

Definition env : Env Desk :=
  mkEnv Desk files shot to_gray correlate
    (fun _ => (4, 3))
    (fun d => (clock d, d))
    (fun s d => mkDesk (clock d + Qfloor (s * 1000000)) (entropy d))
    (fun d => (entropy d, mkDesk (clock d) (entropy d + 7)))
    (fun _ _ _ d => d)
    (fun d => d).

Definition cfg : Config Desk :=
  mkConfig Desk (1 # 5) (1 # 20) None None None None.

Definition desk0 : Desk := mkDesk 0 5.

(** The full-screen region, and a state with nothing done yet. *)
Definition screen_region : ImageMatch :=
  mkImageMatch 0 0 4 3 (1 # 5) None None.

Definition st0 : State Desk := mkState screen_region desk0 [].

(** The scores of the button on the 4 x 3 screen. *)
Definition button_scores : Matrix := tabulate 2 3.

(** The state in which a search for the button starts its correlation
    step, and the one in which it ends it. *)
Definition button_start : State Desk := logged (EvImread "button.png") st0.
Definition button_done : State Desk := refreshed env button_start.

(** The pad of one pixel on every side. *)
Definition pad1 : Pad := (1, 1, 1, 1).

(** Class attributes with a click override and a click callback that do
    nothing, and class attributes with another mouse speed. *)
Definition cfg_hooked : Config Desk :=
  mkConfig Desk (1 # 5) (1 # 20) None None
    (Some (fun _ _ _ _ d => (Ok tt, d)))
    (Some (fun _ _ _ d => (Ok tt, d))).


(** A state whose instance has a negative width. *)
Definition st_negative : State Desk :=
  mkState (mkImageMatch 0 0 (-1) 3 (1 # 5) None None) desk0 [].

(** A desk on which the engine reports the button with the score 1 at
    row 1, column 2 and with 1/2 elsewhere, and the double just above 1,
    which is 1 + 2^-52. *)
Definition env_flag : Env Desk :=
  mkEnv Desk files shot to_gray
    (fun _ _ => Some [[1 # 2; 1 # 2; 1 # 2]; [1 # 2; 1 # 2; 1]]%Q)
    (fun _ => (4, 3))
    (fun d => (clock d, d))
    (fun s d => mkDesk (clock d + Qfloor (s * 1000000)) (entropy d))
    (fun d => (entropy d, mkDesk (clock d) (entropy d + 7)))
    (fun _ _ _ d => d)
    (fun d => d).

Definition above_one : Q := 4503599627370497 # 4503599627370496.

(** The list [find_all] returns for the button at a threshold. *)
Definition found_all (threshold : Q) : list ImageMatch :=
  match fst (find_all env cfg "button.png" threshold false st0) with
  | Ok l => l
  | Raise _ => []
  end.

End Demo.

(** * Properties *)

(** ** Cells of a matrix *)

Lemma row_cells_In (r0 c0 : Z) (row : list Q) (r c : Z) (v : Q) :
  In (r, c, v) (row_cells r0 c0 row) <->
  r = r0 /\ c0 <= c /\ nth_error row (Z.to_nat (c - c0)) = Some v.
Proof.
  revert c0. induction row as [|q row IH]; intros c0; simpl.
  - split; [tauto|]. intros (_ & _ & Hn).
    destruct (Z.to_nat (c - c0)); discriminate.
  - rewrite IH. split.
    + intros [Heq | (-> & Hle & Hn)].
      * inversion Heq; subst. rewrite Z.sub_diag. simpl. repeat split; lia.
      * repeat split; try lia.
        replace (Z.to_nat (c - c0)) with (S (Z.to_nat (c - (c0 + 1)))) by lia.
        exact Hn.
    + intros (-> & Hle & Hn).
      destruct (Z.eq_dec c c0) as [-> | Hne].
      * left. rewrite Z.sub_diag in Hn. simpl in Hn. congruence.
      * right. repeat split; try lia.
        replace (Z.to_nat (c - c0)) with (S (Z.to_nat (c - (c0 + 1)))) in Hn
          by lia.
        exact Hn.
Qed.

Lemma cells_from_In (r0 : Z) (m : Matrix) (r c : Z) (v : Q) :
  In (r, c, v) (cells_from r0 m) <->
  r0 <= r /\ 0 <= c /\
  exists row, nth_error m (Z.to_nat (r - r0)) = Some row /\
              nth_error row (Z.to_nat c) = Some v.
Proof.
  revert r0. induction m as [|row0 m IH]; intros r0; simpl.
  - split; [tauto|]. intros (_ & _ & row & Hn & _).
    destruct (Z.to_nat (r - r0)); discriminate.
  - rewrite in_app_iff, row_cells_In, IH. rewrite Z.sub_0_r. split.
    + intros [(-> & Hc & Hn) | (Hr & Hc & row & Hm & Hn)].
      * repeat split; try lia. exists row0. rewrite Z.sub_diag. auto.
      * repeat split; try lia. exists row. split; [|exact Hn].
        replace (Z.to_nat (r - r0)) with (S (Z.to_nat (r - (r0 + 1)))) by lia.
        exact Hm.
    + intros (Hr & Hc & row & Hm & Hn).
      destruct (Z.eq_dec r r0) as [-> | Hne].
      * left. rewrite Z.sub_diag in Hm. simpl in Hm.
        inversion Hm; subst. auto.
      * right. repeat split; try lia. exists row. split; [|exact Hn].
        replace (Z.to_nat (r - r0)) with (S (Z.to_nat (r - (r0 + 1)))) in Hm
          by lia.
        exact Hm.
Qed.

(** The row-major enumeration lists exactly the cells of the matrix. *)
Lemma cells_In (m : Matrix) (r c : Z) (v : Q) :
  In (r, c, v) (cells m) <-> cell m r c = Some v.
Proof.
  unfold cells, cell. rewrite cells_from_In, Z.sub_0_r. split.
  - intros (Hr & Hc & row & Hm & Hn).
    destruct (Z.ltb_spec r 0); [lia|]. destruct (Z.ltb_spec c 0); [lia|].
    simpl. rewrite Hm. exact Hn.
  - destruct (Z.ltb_spec r 0); [discriminate|].
    destruct (Z.ltb_spec c 0); [discriminate|]. simpl.
    destruct (nth_error m (Z.to_nat r)) as [row|] eqn:Hm; [|discriminate].
    intros Hn. repeat split; try lia. exists row. auto.
Qed.

(** Indexing as the code does it reaches the score of a cell. *)
Lemma getitem_cell (m : Matrix) (r c : Z) (v : Q) :
  cell m r c = Some v ->
  exists row, getitem m r = Ok row /\ getitem row c = Ok v.
Proof.
  unfold cell.
  destruct (Z.ltb_spec r 0); [discriminate|].
  destruct (Z.ltb_spec c 0); [discriminate|]. simpl.
  destruct (nth_error m (Z.to_nat r)) as [row|] eqn:Hm; [|discriminate].
  intros Hn. exists row.
  assert (Hlr : (Z.to_nat r < List.length m)%nat)
    by (apply nth_error_Some; congruence).
  assert (Hlc : (Z.to_nat c < List.length row)%nat)
    by (apply nth_error_Some; congruence).
  unfold getitem.
  destruct (Z.ltb_spec r 0); [lia|]. destruct (Z.ltb_spec c 0); [lia|].
  destruct (Z.leb_spec (Z.of_nat (List.length m)) r); [lia|].
  destruct (Z.leb_spec (Z.of_nat (List.length row)) c); [lia|].
  simpl. rewrite Hm, Hn.
  destruct (Z.ltb_spec r 0); [lia|]. destruct (Z.ltb_spec c 0); [lia|].
  auto.
Qed.

Lemma getitem_raises {A} (l : list A) (i : Z) (e : Exn) :
  getitem l i = Raise e -> e = IndexError.
Proof.
  unfold getitem.
  destruct ((_ <? 0) || (_ <=? _)); [congruence|].
  destruct (nth_error l _); congruence.
Qed.

(** ** Comparisons of scores *)

Lemma Qltb_lt (a b : Q) : Qltb a b = true <-> (a < b)%Q.
Proof.
  unfold Qltb. rewrite negb_true_iff. split.
  - intros Hf. apply Qnot_le_lt. intros Hle.
    apply Qle_bool_iff in Hle. congruence.
  - intros Hlt. destruct (Qle_bool b a) eqn:Hb; [|reflexivity].
    apply Qle_bool_iff in Hb. exfalso. exact (Qlt_not_le _ _ Hlt Hb).
Qed.

Lemma Qltb_ge (a b : Q) : Qltb a b = false <-> (b <= a)%Q.
Proof.
  unfold Qltb. rewrite negb_false_iff. apply Qle_bool_iff.
Qed.

(** ** Rounding to single precision *)

Lemma Qround_even_floor (q : Q) :
  Qfloor q <= Qround_even q <= Qfloor q + 1.
Proof.
  unfold Qround_even. destruct (_ ?= _)%Q; [destruct (Z.even _)| |]; lia.
Qed.

Lemma Qround_even_mono (p q : Q) :
  (p <= q)%Q -> Qround_even p <= Qround_even q.
Proof.
  intros Hpq. pose proof (Qfloor_resp_le p q Hpq) as Hf.
  pose proof (Qround_even_floor p) as Hp.
  pose proof (Qround_even_floor q) as Hq.
  destruct (Z.eq_dec (Qfloor p) (Qfloor q)) as [Heq | Hne]; [|lia].
  unfold Qround_even in *. rewrite Heq in *.
  set (f := Qfloor q) in *.
  destruct (Qcompare_spec (p - inject_Z f) (1 # 2));
    destruct (Qcompare_spec (q - inject_Z f) (1 # 2));
    try lia; try (exfalso; lra).
Qed.

Lemma Qround_even_lower (a : Z) (q : Q) :
  (inject_Z a <= q)%Q -> a <= Qround_even q.
Proof.
  intros Ha. pose proof (Qfloor_resp_le _ _ Ha) as Hf.
  rewrite Qfloor_Z in Hf. pose proof (Qround_even_floor q). lia.
Qed.

Lemma Qround_even_upper (b : Z) (q : Q) :
  (q <= inject_Z b)%Q -> Qround_even q <= b.
Proof.
  intros Hb. pose proof (Qfloor_resp_le _ _ Hb) as Hf.
  rewrite Qfloor_Z in Hf. pose proof (Qround_even_floor q) as Hr.
  destruct (Z.eq_dec (Qfloor q) b) as [Heq | Hne]; [|lia].
  unfold Qround_even. rewrite Heq.
  pose proof (Qfloor_le q) as Hfl. rewrite Heq in Hfl.
  destruct (Qcompare_spec (q - inject_Z b) (1 # 2)); try lia; exfalso; lra.
Qed.

Lemma Qround_even_Z (a : Z) : Qround_even (inject_Z a) = a.
Proof.
  pose proof (Qround_even_lower a (inject_Z a) (Qle_refl _)).
  pose proof (Qround_even_upper a (inject_Z a) (Qle_refl _)). lia.
Qed.

(** Powers of two. *)
Lemma pow2_pos (k : Z) : (0 < 2 ^ k)%Q.
Proof. apply Qpower_0_lt. reflexivity. Qed.

Lemma pow2_succ (k : Z) : (2 ^ (k + 1) == 2 * 2 ^ k)%Q.
Proof. rewrite Qpower_plus by discriminate. simpl (2 ^ 1)%Q. ring. Qed.

Lemma pow2_le (j k : Z) : j <= k -> (2 ^ j <= 2 ^ k)%Q.
Proof. intros H. apply Qpower_le_compat_l; [exact H | discriminate]. Qed.

Lemma pow2_lt_inv (j k : Z) : (2 ^ j < 2 ^ k)%Q -> j < k.
Proof. intros H. apply (Qpower_lt_compat_l_inv 2); [exact H | reflexivity]. Qed.

Lemma pow2_split (j k : Z) : (2 ^ (j + k) == 2 ^ j * 2 ^ k)%Q.
Proof. apply Qpower_plus. discriminate. Qed.

(** The integer logarithm of a positive integer, read in Q. *)
Lemma log2_bounds (n : Z) :
  0 < n ->
  (2 ^ Z.log2 n <= inject_Z n)%Q /\ (inject_Z n < 2 * 2 ^ Z.log2 n)%Q.
Proof.
  intros Hn. destruct (Z.log2_spec n Hn) as [Hlo Hhi].
  pose proof (Z.log2_nonneg n) as Hnn.
  rewrite <- pow2_succ.
  rewrite <- (Zpower_Qpower 2 (Z.log2 n)) by exact Hnn.
  rewrite <- (Zpower_Qpower 2 (Z.log2 n + 1)) by lia.
  rewrite <- Zle_Qle, <- Zlt_Qlt.
  replace (Z.log2 n + 1) with (Z.succ (Z.log2 n)) by lia.
  split; assumption.
Qed.

Lemma binade_spec (q : Q) :
  (0 < q)%Q -> (2 ^ binade q <= q)%Q /\ (q < 2 * 2 ^ binade q)%Q.
Proof.
  intros Hq. unfold binade.
  set (n := Qnum q). set (d := Zpos (Qden q)).
  assert (Hn : 0 < n).
  { unfold Qlt in Hq. simpl in Hq. unfold n. lia. }
  assert (Hd : 0 < d) by (unfold d; lia).
  destruct (log2_bounds n Hn) as [Hn1 Hn2].
  destruct (log2_bounds d Hd) as [Hd1 Hd2].
  set (k := Z.log2 n - Z.log2 d).
  assert (Hk : (2 ^ k * 2 ^ Z.log2 d == 2 ^ Z.log2 n)%Q).
  { rewrite <- pow2_split. unfold k.
    replace (Z.log2 n - Z.log2 d + Z.log2 d) with (Z.log2 n) by lia.
    reflexivity. }
  assert (Hqd : (q * inject_Z d == inject_Z n)%Q).
  { unfold n, d. destruct q as [qn qd]. unfold Qeq. simpl. lia. }
  pose proof (pow2_pos k) as Hpk.
  pose proof (pow2_pos (Z.log2 d)) as Hpd.
  pose proof (pow2_pos (Z.log2 n)) as Hpn.
  assert (Hdq : (0 < inject_Z d)%Q) by (unfold Qlt; simpl; lia).
  pose proof (pow2_succ (k - 1)) as HX.
  replace (k - 1 + 1) with k in HX by lia.
  pose proof (pow2_pos (k - 1)) as Hp1.
  set (X := (2 ^ k)%Q) in *. set (A := (2 ^ Z.log2 n)%Q) in *.
  set (B := (2 ^ Z.log2 d)%Q) in *.
  set (N := inject_Z n) in *. set (D := inject_Z d) in *.
  set (Y := (2 ^ (k - 1))%Q) in *.
  assert (Hup : (q < 2 * X)%Q).
  { apply Qnot_le_lt. intros Hc.
    assert (H1 : (2 * X * D <= q * D)%Q) by nra.
    assert (H2 : (2 * X * B <= 2 * X * D)%Q) by nra.
    nra. }
  assert (Hlow : (X <= 2 * q)%Q).
  { apply Qnot_lt_le. intros Hc.
    assert (H1 : (2 * q * D < X * D)%Q) by nra.
    assert (H2 : (X * D < X * (2 * B))%Q) by nra.
    nra. }
  destruct (Qle_bool X q) eqn:Hle.
  - apply Qle_bool_iff in Hle. fold X. split; assumption.
  - assert (Hlt : (q < X)%Q).
    { apply Qnot_le_lt. intros Hc. apply Qle_bool_iff in Hc. congruence. }
    fold Y. split; lra.
Qed.

Lemma binade_mono (p q : Q) :
  (0 < p)%Q -> (p <= q)%Q -> binade p <= binade q.
Proof.
  intros Hp Hpq.
  destruct (binade_spec p Hp) as [Hp1 _].
  destruct (binade_spec q (Qlt_le_trans _ _ _ Hp Hpq)) as [_ Hq2].
  rewrite <- pow2_succ in Hq2.
  assert (H : (2 ^ binade p < 2 ^ (binade q + 1))%Q) by lra.
  apply pow2_lt_inv in H. lia.
Qed.

Lemma scaled_le (a b : Q) (u : Z) :
  (a <= b)%Q -> (a / 2 ^ u <= b / 2 ^ u)%Q.
Proof.
  intros H. pose proof (pow2_pos u) as Hp.
  unfold Qdiv. apply Qmult_le_compat_r; [exact H|].
  apply Qlt_le_weak. apply Qinv_lt_0_compat. exact Hp.
Qed.

Lemma scaled_back (a : Q) (u : Z) : (a / 2 ^ u * 2 ^ u == a)%Q.
Proof.
  pose proof (pow2_pos u) as Hp. field. intros H. rewrite H in Hp.
  discriminate Hp.
Qed.

Lemma round_single_abs_nonneg (a : Q) :
  (0 <= a)%Q -> (0 <= round_single_abs a)%Q.
Proof.
  intros Ha. unfold round_single_abs.
  set (u := Z.max (binade a) (-126) - 23).
  pose proof (pow2_pos u) as Hp.
  assert (H0 : 0 <= Qround_even (a / 2 ^ u)).
  { apply Qround_even_lower. change (inject_Z 0) with 0%Q.
    unfold Qdiv. apply Qmult_le_0_compat; [exact Ha|].
    apply Qlt_le_weak. apply Qinv_lt_0_compat. exact Hp. }
  assert (H1 : (0 <= inject_Z (Qround_even (a / 2 ^ u)))%Q)
    by (unfold Qle; simpl; lia).
  nra.
Qed.

Lemma pow2_23 (u : Z) : (2 ^ (u + 23) == 8388608 * 2 ^ u)%Q.
Proof. rewrite pow2_split. change (2 ^ 23)%Q with 8388608%Q. ring. Qed.

(** The rounded value stays in the closed binade of its argument. *)
Lemma round_single_abs_bounds (a : Q) :
  (0 < a)%Q ->
  let e := Z.max (binade a) (-126) in
  (round_single_abs a <= 2 * 2 ^ e)%Q /\
  (-126 <= binade a -> (2 ^ e <= round_single_abs a)%Q).
Proof.
  intros Ha e. destruct (binade_spec a Ha) as [Hlo Hhi].
  unfold round_single_abs. fold e. set (u := e - 23).
  pose proof (pow2_pos u) as Hp.
  pose proof (pow2_23 u) as He. replace (u + 23) with e in He by (unfold u; lia).
  pose proof (scaled_back a u) as Hback.
  set (sc := (a / 2 ^ u)%Q) in *. split.
  - assert (Hx : (sc <= inject_Z 16777216)%Q).
    { change (inject_Z 16777216) with 16777216%Q.
      assert (Hle : (2 ^ binade a <= 2 ^ e)%Q) by (apply pow2_le; unfold e; lia).
      apply Qnot_lt_le. intros Hc.
      assert (H1 : (16777216 * 2 ^ u < sc * 2 ^ u)%Q) by nra. lra. }
    apply Qround_even_upper in Hx.
    assert (H1 : (inject_Z (Qround_even sc) <= 16777216)%Q)
      by (unfold Qle; simpl; lia).
    nra.
  - intros Hnormal. assert (Hbe : e = binade a) by (unfold e; lia).
    rewrite <- Hbe in Hlo.
    assert (Hx : (inject_Z 8388608 <= sc)%Q).
    { change (inject_Z 8388608) with 8388608%Q.
      apply Qnot_lt_le. intros Hc.
      assert (H1 : (sc * 2 ^ u < 8388608 * 2 ^ u)%Q) by nra. lra. }
    apply Qround_even_lower in Hx.
    assert (H1 : (8388608 <= inject_Z (Qround_even sc))%Q)
      by (unfold Qle; simpl; lia).
    nra.
Qed.

Lemma round_single_abs_mono (a b : Q) :
  (0 <= a)%Q -> (a <= b)%Q -> (round_single_abs a <= round_single_abs b)%Q.
Proof.
  intros Ha Hab.
  destruct (Qlt_le_dec 0 a) as [Hpos | Hzero].
  - assert (Hb : (0 < b)%Q) by lra.
    pose proof (binade_mono a b Hpos Hab) as Hbin.
    destruct (round_single_abs_bounds a Hpos) as [Haup _].
    destruct (round_single_abs_bounds b Hb) as [_ Hblo].
    cbv zeta in Haup, Hblo.
    destruct (Z.eq_dec (Z.max (binade a) (-126)) (Z.max (binade b) (-126)))
      as [Heq | Hne].
    + unfold round_single_abs. rewrite Heq.
      set (u := Z.max (binade b) (-126) - 23).
      pose proof (pow2_pos u) as Hp.
      pose proof (Qround_even_mono _ _ (scaled_le a b u Hab)) as Hr.
      assert (H1 : (inject_Z (Qround_even (a / 2 ^ u))
                    <= inject_Z (Qround_even (b / 2 ^ u)))%Q)
        by (rewrite <- Zle_Qle; exact Hr).
      nra.
    + assert (Hnormal : -126 <= binade b) by lia.
      specialize (Hblo Hnormal).
      assert (Hstep : (2 * 2 ^ Z.max (binade a) (-126)
                       <= 2 ^ Z.max (binade b) (-126))%Q).
      { rewrite <- pow2_succ. apply pow2_le. lia. }
      lra.
  - assert (Ha0 : (a == 0)%Q) by lra.
    assert (Hra : (round_single_abs a == 0)%Q).
    { unfold round_single_abs.
      set (u := Z.max (binade a) (-126) - 23).
      assert (Hx : (a / 2 ^ u == 0)%Q) by (rewrite Ha0; reflexivity).
      assert (H0 : Qround_even (a / 2 ^ u) = 0).
      { pose proof (Qround_even_lower 0 (a / 2 ^ u)) as Hl.
        pose proof (Qround_even_upper 0 (a / 2 ^ u)) as Hu.
        change (inject_Z 0) with 0%Q in Hl, Hu.
        assert (0 <= Qround_even (a / 2 ^ u)) by (apply Hl; lra).
        assert (Qround_even (a / 2 ^ u) <= 0) by (apply Hu; lra). lia. }
      rewrite H0. ring. }
    rewrite Hra. apply round_single_abs_nonneg. lra.
Qed.

Lemma round_single_mono (p q : Q) :
  (p <= q)%Q -> (round_single p <= round_single q)%Q.
Proof.
  intros Hpq. unfold round_single.
  destruct (Qle_bool 0 p) eqn:Hp; destruct (Qle_bool 0 q) eqn:Hq.
  - apply Qle_bool_iff in Hp. apply round_single_abs_mono; assumption.
  - apply Qle_bool_iff in Hp.
    assert (Hc : (0 <= q)%Q) by lra. apply Qle_bool_iff in Hc. congruence.
  - apply Qle_bool_iff in Hq.
    assert (Hn : (0 <= - p)%Q).
    { destruct (Qlt_le_dec p 0) as [H | H]; [lra|].
      apply Qle_bool_iff in H. congruence. }
    pose proof (round_single_abs_nonneg _ Hn).
    pose proof (round_single_abs_nonneg _ Hq). lra.
  - assert (Hn : (0 <= - q)%Q).
    { destruct (Qlt_le_dec q 0) as [H | H]; [lra|].
      apply Qle_bool_iff in H. congruence. }
    assert (Hle : (- q <= - p)%Q) by lra.
    pose proof (round_single_abs_mono _ _ Hn Hle). lra.
Qed.

(** The cast to float32 keeps the order of thresholds, so a score that
    passes a threshold passes every lower one. *)
Lemma ge_float32_mono (score low high : Q) :
  (low <= high)%Q ->
  ge_float32 score (to_float32 high) = true ->
  ge_float32 score (to_float32 low) = true.
Proof.
  intros Hle. pose proof (round_single_mono low high Hle) as Hr.
  unfold to_float32.
  destruct (Qle_bool (2 ^ 128) (round_single high)) eqn:Hh1;
    [discriminate|].
  assert (Hhigh : (round_single high < 2 ^ 128)%Q).
  { apply Qnot_le_lt. intros Hc. apply Qle_bool_iff in Hc. congruence. }
  destruct (Qle_bool (2 ^ 128) (round_single low)) eqn:Hl1.
  { apply Qle_bool_iff in Hl1. exfalso. lra. }
  destruct (Qle_bool (round_single low) (- 2 ^ 128)) eqn:Hl2;
    [reflexivity|].
  destruct (Qle_bool (round_single high) (- 2 ^ 128)) eqn:Hh2.
  { apply Qle_bool_iff in Hh2.
    assert (Hc : (round_single low <= - 2 ^ 128)%Q) by lra.
    apply Qle_bool_iff in Hc. congruence. }
  simpl. intros Hs. apply Qle_bool_iff in Hs. apply Qle_bool_iff. lra.
Qed.

(** For a threshold that the cast leaves as it is, the comparison in
    float32 is the plain one. *)
Lemma ge_float32_exact (score threshold : Q) :
  single_exact threshold ->
  ge_float32 score (to_float32 threshold) = Qle_bool threshold score.
Proof.
  intros (v & -> & Hv). simpl.
  destruct (Qle_bool threshold score) eqn:Hb.
  - apply Qle_bool_iff in Hb. apply Qle_bool_iff. rewrite Hv. exact Hb.
  - destruct (Qle_bool v score) eqn:Hc; [|reflexivity].
    apply Qle_bool_iff in Hc. rewrite Hv in Hc. apply Qle_bool_iff in Hc.
    congruence.
Qed.

(** ** The extremum scan *)

Lemma scan_max_fold (rest : list (Z * Z * Q)) (c0 : Z * Z * Q) :
  In (fold_left scan_max rest c0) (c0 :: rest) /\
  forall cl, In cl (c0 :: rest) ->
             (snd cl <= snd (fold_left scan_max rest c0))%Q.
Proof.
  revert c0. induction rest as [|c1 rest IH]; intros c0; simpl.
  - split; [auto|]. intros cl [<- | []]. apply Qle_refl.
  - destruct (IH (scan_max c0 c1)) as [Hin Hub]. split.
    + destruct Hin as [Heq | Hin]; [|auto].
      rewrite <- Heq. unfold scan_max. destruct (Qltb (snd c0) (snd c1)); auto.
    + assert (H0 : (snd c0 <= snd (scan_max c0 c1))%Q /\
                   (snd c1 <= snd (scan_max c0 c1))%Q).
      { unfold scan_max. destruct (Qltb (snd c0) (snd c1)) eqn:Hlt.
        - apply Qltb_lt in Hlt. split; [apply Qlt_le_weak; auto|apply Qle_refl].
        - apply Qltb_ge in Hlt. split; [apply Qle_refl|auto]. }
      destruct H0 as [Ha Hb].
      intros cl [<- | [<- | Hcl]].
      * eapply Qle_trans; [exact Ha|]. apply Hub. left. reflexivity.
      * eapply Qle_trans; [exact Hb|]. apply Hub. left. reflexivity.
      * apply Hub. right. exact Hcl.
Qed.

(** [cv2.minMaxLoc] on a matrix that has a cell: the maximum it reports is
    the score of the cell at the location it reports, and no cell scores
    higher. *)
Lemma minMaxLoc_max (m : Matrix) :
  cells m <> [] ->
  exists mn mnl maxCol maxRow,
    minMaxLoc m = (mn, max_val m, mnl, (maxCol, maxRow)) /\
    cell m maxRow maxCol = Some (max_val m) /\
    forall r c s, cell m r c = Some s -> (s <= max_val m)%Q.
Proof.
  intros Hne. unfold max_val, minMaxLoc.
  destruct (cells m) as [|c0 rest] eqn:Hc; [congruence|].
  destruct (scan_max_fold rest c0) as [Hin Hub].
  destruct (fold_left scan_min rest c0) as [[rmin cmin] vmin].
  destruct (fold_left scan_max rest c0) as [[rmax cmax] vmax] eqn:Hf.
  simpl. exists vmin, (cmin, rmin), cmax, rmax. split; [reflexivity|]. split.
  - apply cells_In. rewrite Hc. exact Hin.
  - intros r c s Hs. apply cells_In in Hs. rewrite Hc in Hs.
    apply (Hub (r, c, s) Hs).
Qed.

(** ** Row-major order of the enumeration *)

Lemma StronglySorted_app {A} (R : A -> A -> Prop) (l1 l2 : list A) :
  StronglySorted R l1 -> StronglySorted R l2 ->
  (forall a b, In a l1 -> In b l2 -> R a b) ->
  StronglySorted R (l1 ++ l2).
Proof.
  induction l1 as [|a l1 IH]; simpl; intros H1 H2 H12; [exact H2|].
  inversion H1 as [|? ? Hs Hf]; subst. constructor.
  - apply IH; auto.
  - apply Forall_app. split; [exact Hf|].
    apply Forall_forall. intros b Hb. apply H12; auto.
Qed.

Lemma StronglySorted_filter {A} (R : A -> A -> Prop) (f : A -> bool)
    (l : list A) :
  StronglySorted R l -> StronglySorted R (filter f l).
Proof.
  induction 1 as [|a l Hs IH Hf]; simpl; [constructor|].
  destruct (f a); [|exact IH]. constructor; [exact IH|].
  rewrite Forall_forall in *. intros b Hb.
  apply filter_In in Hb. apply Hf. tauto.
Qed.

Lemma StronglySorted_map {A B} (R : A -> A -> Prop) (S : B -> B -> Prop)
    (f : A -> B) (l : list A) :
  (forall a b, R a b -> S (f a) (f b)) ->
  StronglySorted R l -> StronglySorted S (map f l).
Proof.
  intros Hmono. induction 1 as [|a l Hs IH Hf]; simpl; constructor; auto.
  rewrite Forall_forall in *. intros b Hb.
  apply in_map_iff in Hb. destruct Hb as (a' & <- & Ha'). auto.
Qed.

Lemma row_cells_sorted (r c0 : Z) (row : list Q) :
  StronglySorted cell_before (row_cells r c0 row).
Proof.
  revert c0. induction row as [|v row IH]; intros c0; simpl; constructor.
  - apply IH.
  - apply Forall_forall. intros [[r' c'] v'] Hin.
    apply row_cells_In in Hin. destruct Hin as (-> & Hle & _).
    right. simpl. lia.
Qed.

Lemma cells_from_sorted (r0 : Z) (m : Matrix) :
  StronglySorted cell_before (cells_from r0 m).
Proof.
  revert r0. induction m as [|row m IH]; intros r0; simpl; [constructor|].
  apply StronglySorted_app.
  - apply row_cells_sorted.
  - apply IH.
  - intros [[ra ca] va] [[rb cb] vb] Ha Hb.
    apply row_cells_In in Ha. apply cells_from_In in Hb.
    left. simpl. lia.
Qed.

(** ** The correlation step *)

Section Search.

Variable W : Type.
Variable E : Env W.
Variable cfg : Config W.

Ltac run := unfold bind, ret, raise, lift, get_self, put_self, call; simpl.

(** With a template in hand, [_match_template] refreshes the capture when
    it is asked to or when none is held, and hands the capture it then
    holds to the correlation engine. *)
Lemma match_template_loaded (target : string) (t : Gray) (cached : bool)
    (st : State W) :
  _match_template E target (Some t) cached st =
    if negb cached || is_None (_captured (self st))
    then (cv_result (matchTemplate E (fresh_capture E st) t), refreshed E st)
    else cv2_matchTemplate E (_captured (self st)) t st.
Proof.
  unfold _match_template, _capture, refreshed, fresh_capture. run.
  destruct (negb cached || is_None (_captured (self st))); run.
  - destruct (screenshot E _ _ _ _ (ext st)) as [rgb e']. simpl.
    reflexivity.
  - destruct st as [s e tr]. simpl. reflexivity.
Qed.

(** Without one, it reads the file first; a file that cannot be read stops
    it before any capture. *)
Lemma match_template_unloaded (target : string) (cached : bool)
    (st : State W) :
  _match_template E target None cached st =
    match imread E target (ext st) with
    | Some t => _match_template E target (Some t) cached
                  (logged (EvImread target) st)
    | None => (Raise AttributeError, logged (EvImread target) st)
    end.
Proof.
  unfold _match_template, cv2_imread, logged. run.
  destruct (imread E target (ext st)); reflexivity.
Qed.

(** The correlation step leaves the rectangle of the instance alone. *)
Lemma match_template_rect (target : string) (template : option Gray)
    (cached : bool) (st st' : State W) (r : Res Matrix) :
  _match_template E target template cached st = (r, st') ->
  x (self st') = x (self st) /\ y (self st') = y (self st) /\
  w (self st') = w (self st) /\ h (self st') = h (self st).
Proof.
  assert (Hloaded : forall t s s' r',
    _match_template E target (Some t) cached s = (r', s') ->
    x (self s') = x (self s) /\ y (self s') = y (self s) /\
    w (self s') = w (self s) /\ h (self s') = h (self s)).
  { intros t s s' r'. rewrite match_template_loaded.
    destruct (negb cached || is_None (_captured (self s))).
    - intros Heq. inversion Heq; subst. simpl. auto.
    - unfold cv2_matchTemplate, raise, lift.
      destruct (_captured (self s)); intros Heq; inversion Heq; subst; auto. }
  destruct template as [t|]; [apply Hloaded|].
  rewrite match_template_unloaded.
  destruct (imread E target (ext st)) as [t|].
  - intros Heq. apply Hloaded in Heq. simpl in Heq. exact Heq.
  - intros Heq. inversion Heq; subst. simpl. auto.
Qed.

Lemma len_row0_loaded (t : Gray) :
  t <> [] -> len_row0 (Some t) = Ok (width t).
Proof.
  destruct t as [|row t]; [congruence|]. intros _. reflexivity.
Qed.

(** [find] once the file is read and the correlation step has run. *)
Lemma find_loaded (target : string) (similarity : Q) (cached : bool)
    (st st' : State W) (t : Gray) (r : Res Matrix) :
  imread E target (ext st) = Some t ->
  _match_template E target (Some t) cached (logged (EvImread target) st)
    = (r, st') ->
  find E cfg target similarity cached st =
    match r with
    | Raise e => (Raise e, st')
    | Ok m =>
        if Qltb (max_val m) similarity then (Raise FindFailed, st')
        else
          match len_row0 (Some t) with
          | Raise e => (Raise e, st')
          | Ok tw =>
              (Ok (Match cfg target
                     (x (self st') + fst (snd (minMaxLoc m)))
                     (y (self st') + snd (snd (minMaxLoc m)))
                     tw (height t) (max_val m)), st')
          end
    end.
Proof.
  intros Hread Hstep. unfold find, cv2_imread. run. rewrite Hread.
  change (mkState (self st) (ext st) (EvImread target :: trace st))
    with (logged (EvImread target) st).
  rewrite Hstep. destruct r as [m|e]; [|reflexivity].
  unfold max_val. destruct (minMaxLoc m) as [[[mn mx] mnl] mxl]. simpl.
  destruct (Qltb mx similarity); [reflexivity|].
  destruct (getitem t 0); reflexivity.
Qed.

(** [find] on a file that cannot be read. *)
Lemma find_unreadable (target : string) (similarity : Q) (cached : bool)
    (st : State W) :
  imread E target (ext st) = None ->
  find E cfg target similarity cached st =
    (Raise AttributeError,
     logged (EvImread target) (logged (EvImread target) st)).
Proof.
  intros Hread. unfold find, cv2_imread. run. rewrite Hread.
  change (mkState (self st) (ext st) (EvImread target :: trace st))
    with (logged (EvImread target) st).
  rewrite match_template_unloaded. simpl. rewrite Hread. reflexivity.
Qed.

(** C1.  [find] takes the global maximum of the score matrix: the value it
    works with is the score of a cell and no cell scores higher.  When that
    maximum is below [similarity] it raises FindFailed; otherwise it returns
    the Match at (region.x + maxCol, region.y + maxRow) with the width and
    height of the template and the maximum as its similarity. *)
Theorem find_returns_global_maximum
    (target : string) (similarity : Q) (cached : bool)
    (st st' : State W) (t : Gray) (m : Matrix) :
  imread E target (ext st) = Some t ->
  t <> [] ->
  _match_template E target (Some t) cached (logged (EvImread target) st)
    = (Ok m, st') ->
  cells m <> [] ->
  exists maxRow maxCol maxVal,
    cell m maxRow maxCol = Some maxVal /\
    (forall r c s, cell m r c = Some s -> (s <= maxVal)%Q) /\
    ((maxVal < similarity)%Q ->
       find E cfg target similarity cached st = (Raise FindFailed, st')) /\
    ((similarity <= maxVal)%Q ->
       exists found,
         find E cfg target similarity cached st = (Ok found, st') /\
         found = Match cfg target (x (self st) + maxCol)
                   (y (self st) + maxRow) (width t) (height t) maxVal /\
         x found = x (self st) + maxCol /\
         y found = y (self st) + maxRow /\
         w found = width t /\ h found = height t /\
         ident found = Some (target, maxVal)).
Proof.
  intros Hread Ht Hstep Hcells.
  destruct (minMaxLoc_max m Hcells) as (mn & mnl & maxCol & maxRow & Hmm & Hat & Hub).
  exists maxRow, maxCol, (max_val m).
  pose proof (find_loaded target similarity cached st st' t (Ok m) Hread Hstep)
    as Hfind.
  destruct (match_template_rect _ _ _ _ _ _ Hstep) as (Hx & Hy & _).
  simpl in Hx, Hy.
  rewrite Hx, Hy, Hmm, (len_row0_loaded t Ht) in Hfind. simpl in Hfind.
  repeat split; auto.
  - intros Hlt. apply Qltb_lt in Hlt. rewrite Hlt in Hfind. exact Hfind.
  - intros Hge. apply Qltb_ge in Hge. rewrite Hge in Hfind.
    eexists. split; [exact Hfind|]. repeat split.
Qed.

(** The only exceptions of the correlation step are the one for a
    template that is None and the failure of the engine. *)
Lemma match_template_raises (target : string) (template : option Gray)
    (cached : bool) (st st' : State W) (e : Exn) :
  _match_template E target template cached st = (Raise e, st') ->
  e = AttributeError \/ e = CvError.
Proof.
  assert (Hloaded : forall t s,
    _match_template E target (Some t) cached s = (Raise e, st') ->
    e = AttributeError \/ e = CvError).
  { intros t s. rewrite match_template_loaded.
    destruct (negb cached) eqn:Hc; simpl.
    - destruct (matchTemplate E _ t); simpl; intros Heq; inversion Heq; auto.
    - destruct (_captured (self s)) as [g|]; simpl.
      + unfold lift. destruct (matchTemplate E g t); simpl;
          intros Heq; inversion Heq; auto.
      + destruct (matchTemplate E _ t); simpl; intros Heq; inversion Heq; auto. }
  destruct template as [t|]; [apply Hloaded|].
  rewrite match_template_unloaded.
  destruct (imread E target (ext st)) as [t|]; [apply Hloaded|].
  intros Heq. inversion Heq. auto.
Qed.

(** [exists] is the correlation step followed by the threshold test. *)
Lemma exists_unfold (target : string) (similarity : Q) (cached : bool)
    (st : State W) :
  exists_ E target similarity cached st =
    match _match_template E target None cached st with
    | (Ok m, st') => (Ok (negb (Qltb (max_val m) similarity)), st')
    | (Raise e, st') => (Raise e, st')
    end.
Proof.
  unfold exists_. run.
  destruct (_match_template E target None cached st) as [[m|e] st'];
    [|reflexivity].
  unfold max_val. destruct (minMaxLoc m) as [[[mn mx] mnl] mxl]. simpl.
  destruct (Qltb mx similarity); reflexivity.
Qed.

(** C2.  Called in the same state with the same arguments, [exists] never
    raises FindFailed, it returns False exactly when [find] raises
    FindFailed, and it returns True whenever [find] returns a Match. *)
Theorem exists_agrees_with_find
    (target : string) (similarity : Q) (cached : bool) (st : State W) :
  fst (exists_ E target similarity cached st) <> Raise FindFailed /\
  (fst (exists_ E target similarity cached st) = Ok false <->
   fst (find E cfg target similarity cached st) = Raise FindFailed) /\
  (forall found,
     fst (find E cfg target similarity cached st) = Ok found ->
     fst (exists_ E target similarity cached st) = Ok true).
Proof.
  rewrite exists_unfold, match_template_unloaded.
  destruct (imread E target (ext st)) as [t|] eqn:Hread.
  - destruct (_match_template E target (Some t) cached
                (logged (EvImread target) st)) as [r st'] eqn:Hstep.
    rewrite (find_loaded target similarity cached st st' t r Hread Hstep).
    destruct r as [m|e]; simpl.
    + destruct (Qltb (max_val m) similarity); simpl.
      * repeat split; try discriminate; auto.
      * destruct (getitem t 0) as [row|e] eqn:Hrow; simpl.
        -- repeat split; try discriminate; auto.
        -- apply getitem_raises in Hrow. subst e.
           repeat split; try discriminate; auto.
    + apply match_template_raises in Hstep.
      destruct Hstep as [-> | ->]; repeat split; discriminate.
  - rewrite (find_unreadable target similarity cached st Hread). simpl.
    repeat split; discriminate.
Qed.

(** ** find_all *)

Lemma combine_map {A B C} (f : A -> B) (g : A -> C) (l : list A) :
  combine (map f l) (map g l) = map (fun a => (f a, g a)) l.
Proof. induction l; simpl; congruence. Qed.

Lemma find_all_loop_cells (target : string) (t : Gray) (m : Matrix)
    (hits : list (Z * Z * Q)) (acc : list ImageMatch) (st : State W) :
  t <> [] ->
  (forall r c s, In (r, c, s) hits -> cell m r c = Some s) ->
  find_all_loop cfg target (Some t) m
    (map (fun cl => (snd (fst cl), fst (fst cl))) hits) acc st =
  (Ok (acc ++ map (match_of_cell cfg target t (self st)) hits), st).
Proof.
  intros Ht. revert acc. induction hits as [|[[r c] s] hits IH];
    intros acc Hcells.
  - simpl. rewrite app_nil_r. reflexivity.
  - destruct (getitem_cell m r c s) as (row & Hrow & Hcol).
    { apply Hcells. left. reflexivity. }
    cbn [find_all_loop map fst snd]. unfold bind, lift, get_self, ret.
    rewrite (len_row0_loaded t Ht). cbn [len_rows]. rewrite Hrow, Hcol.
    fold (height t).
    change (Match cfg target (x (self st) + c) (y (self st) + r)
              (width t) (height t) s)
      with (match_of_cell cfg target t (self st) (r, c, s)).
    unfold bind, lift, get_self, ret in IH. rewrite IH.
    + rewrite <- app_assoc. reflexivity.
    + intros r' c' s' Hin. apply Hcells. right. exact Hin.
Qed.

(** [find_all] once the file is read and the correlation step has given a
    matrix: one Match per cell that passes, in the order of the scan. *)
Lemma find_all_loaded (target : string) (similarity : Q) (cached : bool)
    (st st' : State W) (t : Gray) (m : Matrix) :
  imread E target (ext st) = Some t ->
  t <> [] ->
  _match_template E target (Some t) cached (logged (EvImread target) st)
    = (Ok m, st') ->
  find_all E cfg target similarity cached st =
    (Ok (map (match_of_cell cfg target t (self st'))
             (filter (fun cl => ge_float32 (snd cl) (to_float32 similarity)) (cells m))), st').
Proof.
  intros Hread Ht Hstep. unfold find_all, cv2_imread. run. rewrite Hread.
  change (mkState (self st) (ext st) (EvImread target :: trace st))
    with (logged (EvImread target) st).
  rewrite Hstep. rewrite combine_map.
  apply (find_all_loop_cells target t m _ [] st' Ht).
  intros r c s Hin. apply filter_In in Hin. apply cells_In. tauto.
Qed.

(** What [find_all] returns once the file is read and the correlation step
    has given a matrix: a Match for exactly the cells whose score passes
    the comparison in float32 with the threshold, each at the region origin
    plus the offset of its cell, with the width and height of the template
    and the score of the cell, listed in row-major order; when no cell
    passes, the list is empty and nothing is raised. *)
Theorem find_all_returns_cells_passing_cast_threshold
    (target : string) (similarity : Q) (cached : bool)
    (st st' : State W) (t : Gray) (m : Matrix) :
  imread E target (ext st) = Some t ->
  t <> [] ->
  _match_template E target (Some t) cached (logged (EvImread target) st)
    = (Ok m, st') ->
  exists l,
    find_all E cfg target similarity cached st = (Ok l, st') /\
    (forall found,
       In found l <->
       exists r c s,
         cell m r c = Some s /\
         ge_float32 s (to_float32 similarity) = true /\
         found = Match cfg target (x (self st) + c) (y (self st) + r)
                   (width t) (height t) s /\
         x found = x (self st) + c /\ y found = y (self st) + r /\
         w found = width t /\ h found = height t /\
         ident found = Some (target, s)) /\
    StronglySorted scan_before l /\
    ((forall r c s, cell m r c = Some s ->
                    ge_float32 s (to_float32 similarity) = false) ->
     l = []).
Proof.
  intros Hread Ht Hstep.
  destruct (match_template_rect _ _ _ _ _ _ Hstep) as (Hx & Hy & _).
  simpl in Hx, Hy.
  eexists. split; [apply (find_all_loaded _ _ _ _ _ _ _ Hread Ht Hstep)|].
  assert (Hmem : forall found,
    In found (map (match_of_cell cfg target t (self st'))
                (filter (fun cl => ge_float32 (snd cl) (to_float32 similarity))
                        (cells m))) <->
    exists r c s,
      cell m r c = Some s /\
      ge_float32 s (to_float32 similarity) = true /\
      found = Match cfg target (x (self st) + c) (y (self st) + r)
                (width t) (height t) s /\
      x found = x (self st) + c /\ y found = y (self st) + r /\
      w found = width t /\ h found = height t /\
      ident found = Some (target, s)).
  { intros found. rewrite in_map_iff. split.
    - intros ([[r c] s] & <- & Hin). apply filter_In in Hin.
      destruct Hin as [Hin Hge]. exists r, c, s.
      apply cells_In in Hin.
      unfold match_of_cell. simpl. rewrite Hx, Hy. repeat split; auto.
    - intros (r & c & s & Hcell & Hge & -> & _). exists (r, c, s). split.
      + unfold match_of_cell. simpl. rewrite Hx, Hy. reflexivity.
      + apply filter_In. split; [apply cells_In; exact Hcell|exact Hge]. }
  split; [exact Hmem|]. split.
  - apply StronglySorted_map with (R := cell_before).
    + intros [[ra ca] va] [[rb cb] vb]. unfold cell_before, scan_before.
      simpl. lia.
    + apply StronglySorted_filter. apply cells_from_sorted.
  - intros Hnone.
    destruct (map _ _) as [|found l] eqn:Hl; [reflexivity|].
    destruct (proj1 (Hmem found)) as (r & c & s & Hcell & Hge & _).
    { left. reflexivity. }
    rewrite (Hnone r c s Hcell) in Hge. discriminate.
Qed.

(** ** The capture behind a search *)

(** The correlation step runs the engine on [capture_used]. *)
Lemma match_template_engine (target : string) (t : Gray) (cached : bool)
    (st : State W) :
  fst (_match_template E target (Some t) cached st) =
    cv_result (matchTemplate E (capture_used E cached st) t).
Proof.
  rewrite match_template_loaded. unfold capture_used.
  destruct cached; simpl; [|reflexivity].
  destruct (_captured (self st)); reflexivity.
Qed.

(** The loop of [find_all] does not touch the state. *)
Lemma find_all_loop_state (target : string) (template : option Gray)
    (m : Matrix) (pairs : list (Z * Z)) (acc : list ImageMatch)
    (st : State W) :
  snd (find_all_loop cfg target template m pairs acc st) = st.
Proof.
  revert acc. induction pairs as [|p pairs IH]; intros acc; simpl;
    [reflexivity|].
  unfold bind, lift, get_self, ret.
  destruct (len_row0 template); [|reflexivity].
  destruct (len_rows template); [|reflexivity].
  destruct (getitem m (snd p)) as [row|]; [|reflexivity].
  destruct (getitem row (fst p)); [|reflexivity].
  apply IH.
Qed.

(** After the file is read, the three searches end in the state in which
    the correlation step ends. *)
Lemma searches_end_with_step (target : string) (similarity : Q)
    (cached : bool) (st : State W) (t : Gray) :
  imread E target (ext st) = Some t ->
  let st' := snd (_match_template E target (Some t) cached
                    (logged (EvImread target) st)) in
  snd (find E cfg target similarity cached st) = st' /\
  snd (find_all E cfg target similarity cached st) = st' /\
  snd (exists_ E target similarity cached st) = st'.
Proof.
  intros Hread.
  destruct (_match_template E target (Some t) cached
              (logged (EvImread target) st)) as [r st'] eqn:Hstep.
  simpl. repeat split.
  - rewrite (find_loaded _ similarity _ _ _ _ _ Hread Hstep).
    destruct r as [m|e]; [|reflexivity].
    destruct (Qltb (max_val m) similarity); [reflexivity|].
    destruct (len_row0 (Some t)); reflexivity.
  - unfold find_all, cv2_imread. run. rewrite Hread.
    change (mkState (self st) (ext st) (EvImread target :: trace st))
      with (logged (EvImread target) st).
    rewrite Hstep. destruct r as [m|e]; [|reflexivity].
    apply find_all_loop_state.
  - rewrite exists_unfold, match_template_unloaded, Hread, Hstep.
    destruct r; reflexivity.
Qed.

(** C10 (amended).  A search whose template file is read, called with
    [cached] false or while no capture is held, takes one fresh capture of
    the rectangle, stores its grayscale image in [_captured] and correlates
    against that image; this holds for [find], [find_all] and [exists]
    whatever their outcome. *)
Theorem search_stores_fresh_capture
    (target : string) (similarity : Q) (cached : bool)
    (st : State W) (t : Gray) :
  imread E target (ext st) = Some t ->
  cached = false \/ _captured (self st) = None ->
  exists st1,
    trace st1 =
      EvScreenshot (x (self st)) (y (self st)) (w (self st)) (h (self st))
        :: EvImread target :: trace st /\
    _captured (self st1) = Some (fresh_capture E st) /\
    _match_template E target None cached st =
      (cv_result (matchTemplate E (fresh_capture E st) t), st1) /\
    snd (find E cfg target similarity cached st) = st1 /\
    snd (find_all E cfg target similarity cached st) = st1 /\
    snd (exists_ E target similarity cached st) = st1.
Proof.
  intros Hread Hfresh.
  exists (refreshed E (logged (EvImread target) st)).
  assert (Hstep :
    _match_template E target (Some t) cached (logged (EvImread target) st) =
    (cv_result (matchTemplate E (fresh_capture E st) t),
     refreshed E (logged (EvImread target) st))).
  { rewrite match_template_loaded.
    replace (negb cached || is_None (_captured (self (logged (EvImread target) st))))
      with true; [reflexivity|].
    simpl. destruct Hfresh as [-> | ->]; [reflexivity|].
    symmetry. apply orb_true_r. }
  pose proof (searches_end_with_step target similarity cached st t Hread)
    as Hend.
  rewrite Hstep in Hend. simpl in Hend.
  repeat split; try apply Hend.
  rewrite match_template_unloaded, Hread. exact Hstep.
Qed.

(** C6 (amended).  When the template is larger than the capture in width
    or in height, [find] does nothing of its own about it: it raises
    FindFailed exactly when the correlation engine returns a score matrix
    whose maximum is below [similarity], and when the engine fails its
    cv2.error comes out of [find] as it is. *)
Theorem find_leaves_oversize_to_engine
    (target : string) (similarity : Q) (cached : bool)
    (st : State W) (t : Gray) :
  imread E target (ext st) = Some t ->
  height (capture_used E cached st) < height t \/
  width (capture_used E cached st) < width t ->
  (matchTemplate E (capture_used E cached st) t = None ->
   fst (find E cfg target similarity cached st) = Raise CvError) /\
  (forall m,
     matchTemplate E (capture_used E cached st) t = Some m ->
     (fst (find E cfg target similarity cached st) = Raise FindFailed <->
      (max_val m < similarity)%Q)).
Proof.
  intros Hread _.
  destruct (_match_template E target (Some t) cached
              (logged (EvImread target) st)) as [r st'] eqn:Hstep.
  pose proof (match_template_engine target t cached
                (logged (EvImread target) st)) as Heng.
  rewrite Hstep in Heng. simpl in Heng.
  change (capture_used E cached (logged (EvImread target) st))
    with (capture_used E cached st) in Heng.
  rewrite (find_loaded _ similarity _ _ _ _ _ Hread Hstep). split.
  - intros Hnone. rewrite Hnone in Heng. simpl in Heng. subst r. reflexivity.
  - intros m Hsome. rewrite Hsome in Heng. simpl in Heng. subst r.
    destruct (Qltb (max_val m) similarity) eqn:Hlt.
    + apply Qltb_lt in Hlt. simpl. tauto.
    + apply Qltb_ge in Hlt. split.
      * unfold len_row0. destruct (getitem t 0) as [row|e] eqn:Hrow; simpl;
          [discriminate|].
        apply getitem_raises in Hrow. subst e. discriminate.
      * intros Hlt'. exfalso. exact (Qlt_not_le _ _ Hlt' Hlt).
Qed.

(** ** Traces of the searches *)

(** Every call of [find] starts by reading the template file. *)
Lemma find_trace (target : string) (similarity : Q) (cached : bool)
    (st : State W) :
  exists pre,
    trace (snd (find E cfg target similarity cached st)) =
      pre ++ EvImread target :: trace st.
Proof.
  destruct (imread E target (ext st)) as [t|] eqn:Hread.
  - destruct (searches_end_with_step target similarity cached st t Hread)
      as (-> & _).
    rewrite match_template_loaded.
    destruct (negb cached || _).
    + eexists [_]. reflexivity.
    + exists []. unfold cv2_matchTemplate, raise, lift.
      destruct (_captured _); reflexivity.
  - rewrite (find_unreadable _ _ _ _ Hread). eexists [_]. reflexivity.
Qed.

(** So does every call of [exists]. *)
Lemma exists_trace (target : string) (similarity : Q) (cached : bool)
    (st : State W) :
  exists pre,
    trace (snd (exists_ E target similarity cached st)) =
      pre ++ EvImread target :: trace st.
Proof.
  destruct (imread E target (ext st)) as [t|] eqn:Hread.
  - destruct (searches_end_with_step target similarity cached st t Hread)
      as (_ & _ & ->).
    rewrite match_template_loaded.
    destruct (negb cached || _).
    + eexists [_]. reflexivity.
    + exists []. unfold cv2_matchTemplate, raise, lift.
      destruct (_captured _); reflexivity.
  - rewrite exists_unfold, match_template_unloaded, Hread.
    exists []. reflexivity.
Qed.

(** [exists] on a file that cannot be read. *)
Lemma exists_unreadable (target : string) (similarity : Q) (cached : bool)
    (st : State W) :
  imread E target (ext st) = None ->
  exists_ E target similarity cached st =
    (Raise AttributeError, logged (EvImread target) st).
Proof.
  intros Hread. rewrite exists_unfold, match_template_unloaded, Hread.
  reflexivity.
Qed.

(** [find_all] on a file that cannot be read. *)
Lemma find_all_unreadable (target : string) (similarity : Q) (cached : bool)
    (st : State W) :
  imread E target (ext st) = None ->
  find_all E cfg target similarity cached st =
    (Raise AttributeError,
     logged (EvImread target) (logged (EvImread target) st)).
Proof.
  intros Hread. unfold find_all, cv2_imread. run. rewrite Hread.
  change (mkState (self st) (ext st) (EvImread target :: trace st))
    with (logged (EvImread target) st).
  rewrite match_template_unloaded. simpl. rewrite Hread. reflexivity.
Qed.

End Search.

(** ** The polling loops *)

Section Polling.

Variable W : Type.
Variable E : Env W.
Variable cfg : Config W.

Lemma wait_loop_step (fuel : nat) (target : string) (wait_ similarity : Q)
    (start now_ : Z) (st : State W) :
  wait_loop E cfg (S fuel) target wait_ similarity start now_ st =
    if Qltb (total_seconds (now_ - start)) wait_ then
      match find E cfg target similarity false st with
      | (Ok found, st1) => Some (Ok found, st1)
      | (Raise FindFailed, st1) =>
          if Qltb (SCAN_RATE cfg) 0 then Some (Raise ValueError, st1)
          else
            wait_loop E cfg fuel target wait_ similarity start
              (fst (paused E cfg st1)) (snd (paused E cfg st1))
      | (Raise e, st1) => Some (Raise e, st1)
      end
    else Some (Raise FindFailed, st).
Proof.
  simpl. destruct (Qltb _ wait_); [|reflexivity].
  destruct (find E cfg target similarity false st) as [[found|e] st1];
    [reflexivity|].
  unfold bind, time_sleep, call, raise, paused.
  destruct (Qltb (SCAN_RATE cfg) 0); simpl.
  - destruct e; reflexivity.
  - destruct (now E (sleep E (SCAN_RATE cfg) (ext st1))) as [t e']. simpl.
    destruct e; reflexivity.
Qed.

Lemma wait_vanish_loop_step (fuel : nat) (target : string)
    (wait_ similarity : Q) (start now_ : Z) (st : State W) :
  wait_vanish_loop E cfg (S fuel) target wait_ similarity start now_ st =
    if Qltb (total_seconds (now_ - start)) wait_ then
      match exists_ E target similarity false st with
      | (Ok false, st1) => Some (Ok true, st1)
      | (Ok true, st1) =>
          if Qltb (SCAN_RATE cfg) 0 then Some (Raise ValueError, st1)
          else
            wait_vanish_loop E cfg fuel target wait_ similarity start
              (fst (paused E cfg st1)) (snd (paused E cfg st1))
      | (Raise e, st1) => Some (Raise e, st1)
      end
    else Some (Raise VanishFailed, st).
Proof.
  simpl. destruct (Qltb _ wait_); [|reflexivity].
  destruct (exists_ E target similarity false st) as [[[|]|e] st1];
    try reflexivity.
  unfold bind, time_sleep, call, raise, paused.
  destruct (Qltb (SCAN_RATE cfg) 0); simpl; [reflexivity|].
  destruct (now E (sleep E (SCAN_RATE cfg) (ext st1))) as [t e']. simpl.
  reflexivity.
Qed.

Lemma wait_start (fuel : nat) (target : string) (wait_ similarity : Q)
    (st : State W) :
  wait E cfg fuel target wait_ similarity st =
    wait_loop E cfg fuel target wait_ similarity
      (fst (fst (started E st))) (snd (fst (started E st))) (snd (started E st)).
Proof.
  unfold wait, started, bind, call, ret. simpl.
  destruct (now E (ext st)) as [t0 e1]. simpl.
  destruct (now E e1) as [t1 e2]. reflexivity.
Qed.

Lemma wait_vanish_start (fuel : nat) (target : string) (wait_ similarity : Q)
    (st : State W) :
  wait_vanish E cfg fuel target wait_ similarity st =
    wait_vanish_loop E cfg fuel target wait_ similarity
      (fst (fst (started E st))) (snd (fst (started E st))) (snd (started E st)).
Proof.
  unfold wait_vanish, started, bind, call, ret. simpl.
  destruct (now E (ext st)) as [t0 e1]. simpl.
  destruct (now E e1) as [t1 e2]. reflexivity.
Qed.

(** The loop of [wait] only adds to the trace. *)
Lemma wait_loop_extends (fuel : nat) (target : string) (wait_ similarity : Q)
    (start now_ : Z) (st st' : State W) (r : Res ImageMatch) :
  wait_loop E cfg fuel target wait_ similarity start now_ st = Some (r, st') ->
  exists pre, trace st' = pre ++ trace st.
Proof.
  revert now_ st. induction fuel as [|fuel IH]; intros now_ st;
    [discriminate|].
  rewrite wait_loop_step.
  destruct (Qltb _ wait_).
  - destruct (find_trace W E cfg target similarity false st) as [pre Hpre].
    destruct (find E cfg target similarity false st) as [[found|e] st1].
    + intros Heq. inversion Heq; subst. simpl in Hpre.
      exists (pre ++ [EvImread target]). rewrite <- app_assoc. exact Hpre.
    + simpl in Hpre.
      assert (Hdone : Some (Raise e, st1) = Some (r, st') ->
                      exists pre0, trace st' = pre0 ++ trace st).
      { intros Heq. inversion Heq; subst.
        exists (pre ++ [EvImread target]). rewrite <- app_assoc. exact Hpre. }
      destruct e; try exact Hdone.
      destruct (Qltb (SCAN_RATE cfg) 0).
      { intros Heq. inversion Heq; subst.
        exists (pre ++ [EvImread target]). rewrite <- app_assoc. exact Hpre. }
      intros Hloop. apply IH in Hloop. destruct Hloop as [pre2 Hpre2].
      simpl in Hpre2. rewrite Hpre in Hpre2.
      exists (pre2 ++ EvNow :: EvSleep (SCAN_RATE cfg)
                     :: pre ++ [EvImread target]).
      rewrite Hpre2. rewrite <- !app_assoc. simpl.
      rewrite <- app_assoc. reflexivity.
  - intros Heq. inversion Heq; subst. exists []. reflexivity.
Qed.

Lemma total_seconds_nonneg (d : Z) : 0 <= d -> (0 <= total_seconds d)%Q.
Proof. intros Hd. unfold total_seconds, Qle. simpl. lia. Qed.

(** C3 (amended).  [wait] reads the clock twice and tests the timeout
    before every attempt, the first one included.  When the time between
    the two readings has already reached the timeout, it raises FindFailed
    without any attempt; that is so for the timeout 0 as soon as the clock
    does not run backwards.  When the first test passes, a [find] attempt
    is made right after the two readings, and an attempt that returns a
    Match or raises anything but FindFailed ends [wait] with that
    outcome. *)
Theorem wait_tests_timeout_before_first_attempt
    (target : string) (wait_ similarity : Q) (st : State W) :
  let t0 := fst (fst (started E st)) in
  let t1 := snd (fst (started E st)) in
  let st2 := snd (started E st) in
  trace st2 = EvNow :: EvNow :: trace st /\
  ((wait_ <= total_seconds (t1 - t0))%Q ->
   forall fuel,
     wait E cfg (S fuel) target wait_ similarity st =
       Some (Raise FindFailed, st2)) /\
  (t0 <= t1 ->
   forall fuel,
     wait E cfg (S fuel) target 0 similarity st =
       Some (Raise FindFailed, st2)) /\
  ((total_seconds (t1 - t0) < wait_)%Q ->
   (forall fuel r st',
      wait E cfg fuel target wait_ similarity st = Some (r, st') ->
      exists pre, trace st' = pre ++ EvImread target :: trace st2) /\
   (forall fuel,
      fst (find E cfg target similarity false st2) <> Raise FindFailed ->
      wait E cfg (S fuel) target wait_ similarity st =
        Some (find E cfg target similarity false st2))).
Proof.
  intros t0 t1 st2.
  assert (Hlate : forall limit, (limit <= total_seconds (t1 - t0))%Q ->
    forall fuel, wait E cfg (S fuel) target limit similarity st =
                 Some (Raise FindFailed, st2)).
  { intros limit Hle fuel. rewrite wait_start, wait_loop_step.
    fold t0 t1 st2. apply Qltb_ge in Hle. rewrite Hle. reflexivity. }
  split; [reflexivity|]. split; [apply Hlate|]. split.
  { intros Hmono. apply Hlate. apply total_seconds_nonneg. lia. }
  intros Hlt. apply Qltb_lt in Hlt. split.
  - intros fuel r st'. rewrite wait_start. fold t0 t1 st2.
    destruct fuel as [|fuel]; [discriminate|].
    rewrite wait_loop_step, Hlt.
    destruct (find_trace W E cfg target similarity false st2) as [pre Hpre].
    destruct (find E cfg target similarity false st2) as [[found|e] st1].
    + intros Heq. inversion Heq; subst. exists pre. exact Hpre.
    + simpl in Hpre.
      assert (Hdone : Some (Raise e, st1) = Some (r, st') ->
        exists pre0, trace st' = pre0 ++ EvImread target :: trace st2).
      { intros Heq. inversion Heq; subst. exists pre. exact Hpre. }
      destruct e; try exact Hdone.
      destruct (Qltb (SCAN_RATE cfg) 0).
      { intros Heq. inversion Heq; subst. exists pre. exact Hpre. }
      intros Hloop. apply wait_loop_extends in Hloop.
      destruct Hloop as [pre2 Hpre2]. simpl in Hpre2. rewrite Hpre in Hpre2.
      exists (pre2 ++ EvNow :: EvSleep (SCAN_RATE cfg) :: pre).
      rewrite Hpre2, <- app_assoc. reflexivity.
  - intros fuel Hres. rewrite wait_start, wait_loop_step. fold t0 t1 st2.
    rewrite Hlt.
    destruct (find E cfg target similarity false st2) as [[found|e] st1];
      [reflexivity|].
    destruct e; try reflexivity. exfalso. apply Hres. reflexivity.
Qed.

(** C5 (amended).  A template file that cannot be read makes [find],
    [find_all] and [exists] raise AttributeError, which is neither
    FindFailed nor False; a poll of [wait] or [wait_vanish] lets that error
    through.  This covers every poll the loops make, so [wait] and
    [wait_vanish] themselves whenever their first timeout test passes. *)
Theorem unreadable_template_raises_its_own_error
    (target : string) (similarity : Q) :
  (forall cached st,
     imread E target (ext st) = None ->
     fst (find E cfg target similarity cached st) = Raise AttributeError /\
     fst (find_all E cfg target similarity cached st) = Raise AttributeError /\
     fst (exists_ E target similarity cached st) = Raise AttributeError) /\
  (forall fuel wait_ start now_ st,
     imread E target (ext st) = None ->
     (total_seconds (now_ - start) < wait_)%Q ->
     wait_loop E cfg (S fuel) target wait_ similarity start now_ st =
       Some (Raise AttributeError,
             logged (EvImread target) (logged (EvImread target) st)) /\
     wait_vanish_loop E cfg (S fuel) target wait_ similarity start now_ st =
       Some (Raise AttributeError, logged (EvImread target) st)) /\
  (forall fuel wait_ st,
     let t0 := fst (fst (started E st)) in
     let t1 := snd (fst (started E st)) in
     let st2 := snd (started E st) in
     imread E target (ext st2) = None ->
     (total_seconds (t1 - t0) < wait_)%Q ->
     wait E cfg (S fuel) target wait_ similarity st =
       Some (Raise AttributeError,
             logged (EvImread target) (logged (EvImread target) st2)) /\
     wait_vanish E cfg (S fuel) target wait_ similarity st =
       Some (Raise AttributeError, logged (EvImread target) st2)).
Proof.
  assert (Hloop : forall fuel wait_ start now_ st,
     imread E target (ext st) = None ->
     (total_seconds (now_ - start) < wait_)%Q ->
     wait_loop E cfg (S fuel) target wait_ similarity start now_ st =
       Some (Raise AttributeError,
             logged (EvImread target) (logged (EvImread target) st)) /\
     wait_vanish_loop E cfg (S fuel) target wait_ similarity start now_ st =
       Some (Raise AttributeError, logged (EvImread target) st)).
  { intros fuel wait_ start now_ st Hread Hlt. apply Qltb_lt in Hlt.
    rewrite wait_loop_step, wait_vanish_loop_step, Hlt.
    rewrite (find_unreadable W E cfg _ _ _ _ Hread).
    rewrite (exists_unreadable W E _ _ _ _ Hread). auto. }
  split; [|split].
  - intros cached st Hread.
    rewrite (find_unreadable W E cfg _ _ _ _ Hread).
    rewrite (find_all_unreadable W E cfg _ _ _ _ Hread).
    rewrite (exists_unreadable W E _ _ _ _ Hread). auto.
  - exact Hloop.
  - intros fuel wait_ st t0 t1 st2 Hread Hlt.
    rewrite wait_start, wait_vanish_start. apply Hloop; assumption.
Qed.

End Polling.

(** ** Construction *)

Section Construction.

Variable W : Type.
Variable E : Env W.
Variable cfg : Config W.

(** C7.  A Region built without arguments is the full screen, one built
    with all four arguments has exactly those bounds, and one built with
    some but not all of them raises ValueError. *)
Theorem region_arguments_all_or_nothing :
  (forall e,
     Region E cfg None None None None e =
       Ok (mkImageMatch 0 0 (fst (size E e)) (snd (size E e))
             (cls_MOUSE_MOVE_SPEED cfg) None None)) /\
  (forall vx vy vw vh e,
     Region E cfg (Some vx) (Some vy) (Some vw) (Some vh) e =
       Ok (mkImageMatch vx vy vw vh (cls_MOUSE_MOVE_SPEED cfg) None None)) /\
  (forall ax ay aw ah e,
     ax <> None \/ ay <> None \/ aw <> None \/ ah <> None ->
     ax = None \/ ay = None \/ aw = None \/ ah = None ->
     Region E cfg ax ay aw ah e = Raise ValueError).
Proof.
  repeat split.
  intros ax ay aw ah e Hsome Hnone.
  destruct ax, ay, aw, ah; try reflexivity; exfalso.
  - destruct Hnone as [H | [H | [H | H]]]; discriminate.
  - destruct Hsome as [H | [H | [H | H]]]; apply H; reflexivity.
Qed.

(** C8 (amended).  The constructors store the width and the height they
    are given and test neither: a Region with all four arguments and a
    Match are built whatever the sign of [w] and [h]. *)
Theorem constructors_store_size_as_given :
  (forall vx vy vw vh e,
     exists r,
       Region E cfg (Some vx) (Some vy) (Some vw) (Some vh) e = Ok r /\
       w r = vw /\ h r = vh) /\
  (forall name mx my mw mh sim,
     w (Match cfg name mx my mw mh sim) = mw /\
     h (Match cfg name mx my mw mh sim) = mh).
Proof.
  split.
  - intros vx vy vw vh e. eexists. split; [reflexivity|]. split; reflexivity.
  - intros. split; reflexivity.
Qed.

End Construction.

(** ** The pointer *)

Section Pointer.

Variable W : Type.
Variable E : Env W.
Variable cfg : Config W.

(** What [random.randint] computes from a draw lies in the closed range,
    and the far end of the range can come out. *)
Lemma randint_range (a b bits : Z) :
  a <= b -> a <= a + bits mod (b - a + 1) <= b.
Proof.
  intros Hab. pose proof (Z.mod_pos_bound bits (b - a + 1)). lia.
Qed.

Lemma randint_far_end (a b : Z) :
  a <= b -> a + (b - a) mod (b - a + 1) = b.
Proof.
  intros Hab. rewrite Z.mod_small; lia.
Qed.

Ltac give_pre :=
  match goal with
  | |- exists pre, ?t = pre ++ ?t /\ _ => exists []
  | |- exists pre, ?a :: ?t = pre ++ ?t /\ _ => exists [a]
  | |- exists pre, ?a :: ?b :: ?t = pre ++ ?t /\ _ => exists [a; b]
  | |- exists pre, ?a :: ?b :: ?c :: ?t = pre ++ ?t /\ _ => exists [a; b; c]
  | |- exists pre, ?a :: ?b :: ?c :: ?d :: ?t = pre ++ ?t /\ _ =>
      exists [a; b; c; d]
  | |- exists pre, ?a :: ?b :: ?c :: ?d :: ?e :: ?t = pre ++ ?t /\ _ =>
      exists [a; b; c; d; e]
  end.

(** The events [click] adds to the trace: every point among them lies in
    the rectangle widened by the pad, and when neither range is empty a
    point is handed on. *)
Lemma click_points (top right bottom left : Z) (st : State W) :
  let s := self st in
  exists pre,
    trace (snd (click E cfg (top, right, bottom, left) st)) =
      pre ++ trace st /\
    (forall ev px py,
       In ev pre -> point_of ev = Some (px, py) ->
       x s - left <= px <= x s + w s + right /\
       y s - top <= py <= y s + h s + bottom) /\
    (x s - left <= x s + w s + right ->
     y s - top <= y s + h s + bottom ->
     exists ev px py, In ev pre /\ point_of ev = Some (px, py)).
Proof.
  intros s. unfold click, randint, run_hook, call_hook.
  unfold bind, raise, ret, call, get_self. simpl. fold s.
  destruct (Z.ltb_spec (x s + w s + right) (x s - left)) as [Hx | Hx]; simpl.
  { give_pre. split; [reflexivity|]. split; [intros ev px py []|lia]. }
  destruct (getrandbits E (ext st)) as [b1 e1]. simpl.
  destruct (Z.ltb_spec (y s + h s + bottom) (y s - top)) as [Hy | Hy]; simpl.
  { give_pre. split; [reflexivity|]. split; [|lia].
    intros ev px py [<- | []]. discriminate. }
  destruct (getrandbits E e1) as [b2 e2]. simpl.
  pose proof (randint_range _ _ b1 Hx) as Hpx.
  pose proof (randint_range _ _ b2 Hy) as Hpy.
  set (px0 := x s - left + b1 mod (x s + w s + right - (x s - left) + 1)) in *.
  set (py0 := y s - top + b2 mod (y s + h s + bottom - (y s - top) + 1)) in *.
  assert (Hpt : forall ev px py pre,
    (forall ev', In ev' pre ->
       forall q, point_of ev' = Some q -> q = (px0, py0)) ->
    In ev pre -> point_of ev = Some (px, py) ->
    x s - left <= px <= x s + w s + right /\
    y s - top <= py <= y s + h s + bottom).
  { intros ev px py pre Hall Hin Hp. apply (Hall ev Hin) in Hp.
    inversion Hp; subst. auto. }
  destruct (override_click_method cfg) as [f|]; simpl.
  - destruct (f s px0 py0 (top, right, bottom, left) e2) as [[[]|e] e3]; simpl.
    + destruct (click_callback cfg) as [g|]; simpl.
      * destruct (g s px0 py0 e3) as [r e4]. simpl.
        give_pre. split; [reflexivity|]. split.
        -- intros ev px py. apply Hpt.
           intros ev' [<- | [<- | [<- | [<- | []]]]] q Hq;
             simpl in Hq; congruence.
        -- intros _ _. eexists _, px0, py0. split; [left; reflexivity|].
           reflexivity.
      * give_pre. split; [reflexivity|]. split.
        -- intros ev px py. apply Hpt.
           intros ev' [<- | [<- | [<- | []]]] q Hq; simpl in Hq; congruence.
        -- intros _ _. eexists _, px0, py0. split; [left; reflexivity|].
           reflexivity.
    + give_pre. split; [reflexivity|]. split.
      * intros ev px py. apply Hpt.
        intros ev' [<- | [<- | [<- | []]]] q Hq; simpl in Hq; congruence.
      * intros _ _. eexists _, px0, py0. split; [left; reflexivity|].
        reflexivity.
  - destruct (click_callback cfg) as [g|]; simpl.
    + destruct (g s px0 py0 (mouse_click E (moveTo E px0 py0 _ e2)))
        as [r e4]. simpl.
      give_pre. split; [reflexivity|]. split.
      * intros ev px py. apply Hpt.
        intros ev' [<- | [<- | [<- | [<- | [<- | []]]]]] q Hq;
          simpl in Hq; congruence.
      * intros _ _. eexists _, px0, py0. split; [left; reflexivity|].
        reflexivity.
    + give_pre. split; [reflexivity|]. split.
      * intros ev px py. apply Hpt.
        intros ev' [<- | [<- | [<- | [<- | []]]]] q Hq;
          simpl in Hq; congruence.
      * intros _ _. eexists _, px0, py0.
        split; [right; left; reflexivity|]. reflexivity.
Qed.

(** C9.  Every point that [click] hands to the pointer or to a hook lies
    in the closed ranges [x - pad.left, x + w + pad.right] and
    [y - pad.top, y + h + pad.bottom]; with the pad (0, 0, 0, 0) these are
    [x, x + w] and [y, y + h], far edges included: the draw that makes
    [random.randint] return the far end of a range exists.  When neither
    range is empty, [click] does hand a point on. *)
Theorem click_point_within_padded_rectangle :
  (forall top right bottom left (st : State W) pre ev px py,
     trace (snd (click E cfg (top, right, bottom, left) st)) =
       pre ++ trace st ->
     In ev pre -> point_of ev = Some (px, py) ->
     x (self st) - left <= px <= x (self st) + w (self st) + right /\
     y (self st) - top <= py <= y (self st) + h (self st) + bottom) /\
  (forall (st : State W) pre ev px py,
     trace (snd (click E cfg (0, 0, 0, 0) st)) = pre ++ trace st ->
     In ev pre -> point_of ev = Some (px, py) ->
     x (self st) <= px <= x (self st) + w (self st) /\
     y (self st) <= py <= y (self st) + h (self st)) /\
  (forall top right bottom left (st : State W),
     x (self st) - left <= x (self st) + w (self st) + right ->
     y (self st) - top <= y (self st) + h (self st) + bottom ->
     exists pre ev px py,
       trace (snd (click E cfg (top, right, bottom, left) st)) =
         pre ++ trace st /\
       In ev pre /\ point_of ev = Some (px, py)) /\
  (forall a b (st : State W),
     a <= b -> fst (getrandbits E (ext st)) = b - a ->
     fst (randint E a b st) = Ok b).
Proof.
  assert (Hall : forall top right bottom left (st : State W) pre ev px py,
     trace (snd (click E cfg (top, right, bottom, left) st)) =
       pre ++ trace st ->
     In ev pre -> point_of ev = Some (px, py) ->
     x (self st) - left <= px <= x (self st) + w (self st) + right /\
     y (self st) - top <= py <= y (self st) + h (self st) + bottom).
  { intros top right bottom left st pre ev px py Htrace Hin Hp.
    destruct (click_points top right bottom left st)
      as (pre' & Htrace' & Hrange & _).
    rewrite Htrace' in Htrace. apply app_inv_tail in Htrace. subst pre'.
    exact (Hrange ev px py Hin Hp). }
  split; [exact Hall|]. split; [|split].
  - intros st pre ev px py Htrace Hin Hp.
    pose proof (Hall 0 0 0 0 st pre ev px py Htrace Hin Hp). lia.
  - intros top right bottom left st Hx Hy.
    destruct (click_points top right bottom left st)
      as (pre & Htrace & _ & Hsome).
    destruct (Hsome Hx Hy) as (ev & px & py & Hin & Hp).
    exists pre, ev, px, py. auto.
  - intros a b st Hab Hbits. unfold randint, bind, call, ret.
    destruct (Z.ltb_spec b a); [lia|]. simpl.
    destruct (getrandbits E (ext st)) as [bits e']. simpl in *. subst bits.
    rewrite (randint_far_end a b Hab). reflexivity.
Qed.

End Pointer.

(** ** Runs on the concrete world *)

Lemma find_returns_global_maximum_witness :
  exists maxRow maxCol maxVal,
    cell Demo.button_scores maxRow maxCol = Some maxVal /\
    (forall r c s, cell Demo.button_scores r c = Some s -> (s <= maxVal)%Q) /\
    ((maxVal < 9 # 10)%Q ->
       find Demo.env Demo.cfg "button.png" (9 # 10) false Demo.st0 =
         (Raise FindFailed, Demo.button_done)) /\
    ((9 # 10 <= maxVal)%Q ->
       exists found,
         find Demo.env Demo.cfg "button.png" (9 # 10) false Demo.st0 =
           (Ok found, Demo.button_done) /\
         found = Match Demo.cfg "button.png" (0 + maxCol) (0 + maxRow)
                   (width Demo.button) (height Demo.button) maxVal /\
         x found = 0 + maxCol /\ y found = 0 + maxRow /\
         w found = width Demo.button /\ h found = height Demo.button /\
         ident found = Some ("button.png"%string, maxVal)).
Proof.
  apply (find_returns_global_maximum Demo.Desk Demo.env Demo.cfg
           "button.png" (9 # 10) false Demo.st0
           Demo.button_done Demo.button Demo.button_scores).
  - reflexivity.
  - discriminate.
  - reflexivity.
  - discriminate.
Defined.

Lemma exists_agrees_with_find_witness :
  fst (exists_ Demo.env "button.png" (9 # 10) false Demo.st0) = Ok true.
Proof.
  eapply (proj2 (proj2 (exists_agrees_with_find Demo.Desk Demo.env Demo.cfg
                          "button.png" (9 # 10) false Demo.st0))).
  reflexivity.
Defined.

Lemma wait_tests_timeout_before_first_attempt_witness :
  wait Demo.env Demo.cfg 1 "button.png" 0 (95 # 100) Demo.st0 =
    Some (Raise FindFailed, snd (started Demo.env Demo.st0)) /\
  exists r st' pre,
    wait Demo.env Demo.cfg 50 "button.png" (1 # 10) (95 # 100) Demo.st0 =
      Some (r, st') /\
    trace st' =
      pre ++ EvImread "button.png" :: trace (snd (started Demo.env Demo.st0)).
Proof.
  split.
  - apply (proj1 (proj2 (proj2
      (wait_tests_timeout_before_first_attempt Demo.Desk Demo.env Demo.cfg
         "button.png" 0 (95 # 100) Demo.st0)))).
    simpl. lia.
  - destruct (wait Demo.env Demo.cfg 50 "button.png" (1 # 10) (95 # 100)
                Demo.st0) as [[r st']|] eqn:Hw;
      [|vm_compute in Hw; discriminate].
    exists r, st'.
    destruct (proj1 (proj2 (proj2 (proj2
      (wait_tests_timeout_before_first_attempt Demo.Desk Demo.env Demo.cfg
         "button.png" (1 # 10) (95 # 100) Demo.st0))) eq_refl) 50%nat r st' Hw)
      as [pre Hpre].
    exists pre. split; [reflexivity | exact Hpre].
Defined.

Lemma unreadable_template_raises_its_own_error_witness :
  (fst (find Demo.env Demo.cfg "nope.png" (1 # 2) false Demo.st0)
     = Raise AttributeError /\
   fst (find_all Demo.env Demo.cfg "nope.png" (1 # 2) false Demo.st0)
     = Raise AttributeError /\
   fst (exists_ Demo.env "nope.png" (1 # 2) false Demo.st0)
     = Raise AttributeError) /\
  option_map fst (wait Demo.env Demo.cfg 1 "nope.png" 1 (1 # 2) Demo.st0)
    = Some (Raise AttributeError) /\
  option_map fst
    (wait_vanish Demo.env Demo.cfg 1 "nope.png" 1 (1 # 2) Demo.st0)
    = Some (Raise AttributeError).
Proof.
  destruct (unreadable_template_raises_its_own_error Demo.Desk Demo.env
              Demo.cfg "nope.png" (1 # 2)) as (Hsearch & _ & Hwait).
  split.
  - apply Hsearch. reflexivity.
  - destruct (Hwait 0%nat 1%Q Demo.st0) as [Hw Hv];
      [reflexivity | reflexivity |].
    rewrite Hw, Hv. split; reflexivity.
Defined.

Lemma find_leaves_oversize_to_engine_witness :
  width (capture_used Demo.env false Demo.st0) < width Demo.banner /\
  fst (find Demo.env Demo.cfg "banner.png" (9 # 10) false Demo.st0)
    = Raise CvError.
Proof.
  split; [reflexivity|].
  apply (proj1 (find_leaves_oversize_to_engine Demo.Desk Demo.env Demo.cfg
                  "banner.png" (9 # 10) false Demo.st0 Demo.banner
                  eq_refl (or_intror eq_refl))).
  reflexivity.
Defined.

Lemma region_arguments_all_or_nothing_witness :
  Region Demo.env Demo.cfg (Some 5) None (Some 10) None Demo.desk0
    = Raise ValueError.
Proof.
  apply (proj2 (proj2 (region_arguments_all_or_nothing Demo.Desk Demo.env
                         Demo.cfg))).
  - left. discriminate.
  - right. left. reflexivity.
Defined.

Lemma click_point_within_padded_rectangle_witness :
  trace (snd (click Demo.env Demo.cfg Demo.pad1 Demo.st0)) =
    [EvClick; EvMoveTo 4 (-1) (1 # 5); EvRandom; EvRandom] /\
  (0 - 1 <= 4 <= 0 + 4 + 1 /\ 0 - 1 <= -1 <= 0 + 3 + 1).
Proof.
  split; [reflexivity|].
  apply (proj1 (click_point_within_padded_rectangle Demo.Desk Demo.env
                  Demo.cfg) 1 1 1 1 Demo.st0
           [EvClick; EvMoveTo 4 (-1) (1 # 5); EvRandom; EvRandom]
           (EvMoveTo 4 (-1) (1 # 5)) 4 (-1)).
  - reflexivity.
  - right. left. reflexivity.
  - reflexivity.
Defined.

Lemma search_stores_fresh_capture_witness :
  exists st1,
    trace st1 = [EvScreenshot 0 0 4 3; EvImread "button.png"] /\
    _captured (self st1) = Some (fresh_capture Demo.env Demo.st0) /\
    _match_template Demo.env "button.png" None false Demo.st0 =
      (cv_result (matchTemplate Demo.env (fresh_capture Demo.env Demo.st0)
                    Demo.button), st1) /\
    snd (find Demo.env Demo.cfg "button.png" (9 # 10) false Demo.st0) = st1 /\
    snd (find_all Demo.env Demo.cfg "button.png" (9 # 10) false Demo.st0)
      = st1 /\
    snd (exists_ Demo.env "button.png" (9 # 10) false Demo.st0) = st1.
Proof.
  apply (search_stores_fresh_capture Demo.Desk Demo.env Demo.cfg
           "button.png" (9 # 10) false Demo.st0 Demo.button).
  - reflexivity.
  - left. reflexivity.
Defined.

(** ** Where the code departs from the specification *)

(** C3 as stated fails: with the timeout 0 and the button not on the
    screen at the asked similarity, [wait] raises FindFailed after the two
    clock readings alone; no template is read and no capture is taken. *)
Lemma wait_zero_timeout_makes_no_attempt :
  fst (find Demo.env Demo.cfg "button.png" (95 # 100) false Demo.st0)
    = Raise FindFailed /\
  exists st',
    wait Demo.env Demo.cfg 10 "button.png" 0 (95 # 100) Demo.st0 =
      Some (Raise FindFailed, st') /\
    trace st' = [EvNow; EvNow] /\
    search_attempts (trace st') = 0%nat.
Proof.
  split; [reflexivity|]. eexists. split; [reflexivity|].
  split; reflexivity.
Qed.

(** C4: the code departs from the claim.  With the threshold 1 + 2^-52
    and a score matrix whose best cell is exactly 1, [find_all] returns a
    Match for that cell although its score is below the threshold: the
    comparison is made in float32, where the threshold is 1.  On the same
    input [find] raises FindFailed. *)
Theorem find_all_returns_score_below_threshold :
  (1 < Demo.above_one)%Q /\
  to_float32 Demo.above_one = Finite (round_single Demo.above_one) /\
  (round_single Demo.above_one == 1)%Q /\
  fst (find Demo.env_flag Demo.cfg "button.png" Demo.above_one false Demo.st0)
    = Raise FindFailed /\
  exists found,
    fst (find_all Demo.env_flag Demo.cfg "button.png" Demo.above_one false
           Demo.st0) = Ok [found] /\
    x found = 2 /\ y found = 1 /\ w found = 2 /\ h found = 2 /\
    ident found = Some ("button.png"%string, 1%Q).
Proof.
  split; [reflexivity|]. split; [reflexivity|]. split; [reflexivity|].
  split; [reflexivity|]. eexists. split; [reflexivity|]. repeat split.
Qed.

(** C5 as stated fails for the polling loops: the file is missing, yet
    [wait] with the timeout 0 reports FindFailed. *)
Lemma wait_zero_timeout_hides_unreadable_template :
  imread Demo.env "nope.png" (ext Demo.st0) = None /\
  option_map fst (wait Demo.env Demo.cfg 10 "nope.png" 0 (1 # 2) Demo.st0)
    = Some (Raise FindFailed).
Proof. split; reflexivity. Qed.

(** C6 as stated fails: a template wider than the capture but not as high
    makes the engine fail, and [find] raises that cv2.error, not
    FindFailed; a template larger on both sides is correlated with the two
    images swapped, and [find] can return a Match. *)
Lemma find_oversize_template_is_not_find_failed :
  imread Demo.env "banner.png" (ext Demo.st0) = Some Demo.banner /\
  width (capture_used Demo.env false Demo.st0) < width Demo.banner /\
  fst (find Demo.env Demo.cfg "banner.png" (9 # 10) false Demo.st0)
    = Raise CvError /\
  imread Demo.env "poster.png" (ext Demo.st0) = Some Demo.poster /\
  width (capture_used Demo.env false Demo.st0) < width Demo.poster /\
  height (capture_used Demo.env false Demo.st0) < height Demo.poster /\
  fst (find Demo.env Demo.cfg "poster.png" (1 # 2) false Demo.st0)
    = Ok (Match Demo.cfg "poster.png" 1 1 5 4 (7 # 10)).
Proof. repeat split; reflexivity. Qed.

(** C8 as stated fails: a Region of width 0 and height -3 is built, and so
    is a Match of width 0. *)
Lemma region_accepts_non_positive_size :
  exists r,
    Region Demo.env Demo.cfg (Some 0) (Some 0) (Some 0) (Some (-3)) Demo.desk0
      = Ok r /\
    ~ (0 < w r /\ 0 < h r) /\
    ~ (0 < w (Match Demo.cfg "button.png" 0 0 0 (-3) (9 # 10))).
Proof.
  eexists. split; [reflexivity|]. simpl. split; lia.
Qed.

(** C10 as stated fails: an uncached [find] whose template file is missing
    raises before it captures; no capture is taken and the cache stays
    empty. *)
Lemma unreadable_search_leaves_cache_empty :
  _captured (self Demo.st0) = None /\
  _captured
    (self (snd (find Demo.env Demo.cfg "nope.png" (9 # 10) false Demo.st0)))
    = None /\
  filter is_screenshot
    (trace (snd (find Demo.env Demo.cfg "nope.png" (9 # 10) false Demo.st0)))
    = [].
Proof. repeat split; reflexivity. Qed.

(** * Further properties of the searches *)

Section SearchLaws.

Variable W : Type.
Variable E : Env W.
Variable cfg : Config W.

(** What the loop of [find_all] appends: one Match per pair, built from
    the score found in the matrix at that pair. *)
Lemma find_all_loop_appends (target : string) (template : option Gray)
    (m : Matrix) (pairs : list (Z * Z)) (acc l : list ImageMatch)
    (st st' : State W) :
  find_all_loop cfg target template m pairs acc st = (Ok l, st') ->
  exists new,
    l = acc ++ new /\
    List.length new = List.length pairs /\
    forall found, In found new ->
      exists c r row score tw th,
        In (c, r) pairs /\ getitem m r = Ok row /\ getitem row c = Ok score /\
        found = Match cfg target (x (self st) + c) (y (self st) + r)
                  tw th score.
Proof.
  revert acc. induction pairs as [|[c r] pairs IH]; intros acc; simpl.
  - unfold ret. intros Heq. inversion Heq; subst. exists [].
    rewrite app_nil_r. repeat split; auto. intros found [].
  - unfold bind, lift, get_self, ret.
    destruct (len_row0 template) as [tw|]; [|discriminate].
    destruct (len_rows template) as [th|]; [|discriminate].
    simpl. destruct (getitem m r) as [row|] eqn:Hrow; [|discriminate].
    destruct (getitem row c) as [score|] eqn:Hscore; [|discriminate].
    intros Hloop. apply IH in Hloop.
    destruct Hloop as (new & -> & Hlen & Hnew).
    eexists (_ :: new). rewrite <- app_assoc. split; [reflexivity|].
    split; [simpl; congruence|].
    intros found [<- | Hin].
    + exists c, r, row, score, tw, th. auto.
    + destruct (Hnew found Hin)
        as (c' & r' & row' & score' & tw' & th' & Hp & H1 & H2 & ->).
      exists c', r', row', score', tw', th'. auto.
Qed.

(** A result of [find_all] comes from a template that was read and a
    matrix that the correlation step gave. *)
Lemma find_all_ok_inv (target : string) (similarity : Q) (cached : bool)
    (st st' : State W) (l : list ImageMatch) :
  find_all E cfg target similarity cached st = (Ok l, st') ->
  exists t m,
    imread E target (ext st) = Some t /\
    _match_template E target (Some t) cached (logged (EvImread target) st)
      = (Ok m, st') /\
    find_all_loop cfg target (Some t) m
      (map (fun cl => (snd (fst cl), fst (fst cl)))
           (filter (fun cl => ge_float32 (snd cl) (to_float32 similarity)) (cells m))) [] st'
      = (Ok l, st').
Proof.
  unfold find_all, cv2_imread, bind, call. simpl.
  destruct (imread E target (ext st)) as [t|] eqn:Hread.
  - change (mkState (self st) (ext st) (EvImread target :: trace st))
      with (logged (EvImread target) st).
    destruct (_match_template E target (Some t) cached
                (logged (EvImread target) st)) as [[m|e] st1] eqn:Hstep;
      [|discriminate].
    rewrite combine_map. intros Hloop.
    pose proof (find_all_loop_state W cfg target (Some t) m
      (map (fun cl => (snd (fst cl), fst (fst cl)))
           (filter (fun cl => ge_float32 (snd cl) (to_float32 similarity)) (cells m))) [] st1)
      as Hst.
    rewrite Hloop in Hst. simpl in Hst. subst st'.
    exists t, m. auto.
  - change (mkState (self st) (ext st) (EvImread target :: trace st))
      with (logged (EvImread target) st).
    rewrite match_template_unloaded. simpl. rewrite Hread. discriminate.
Qed.

(** A result of [find] comes from a template that was read and a matrix
    whose maximum reaches the threshold. *)
Lemma find_ok_inv (target : string) (similarity : Q) (cached : bool)
    (st st' : State W) (found : ImageMatch) :
  find E cfg target similarity cached st = (Ok found, st') ->
  exists t m tw,
    imread E target (ext st) = Some t /\
    _match_template E target (Some t) cached (logged (EvImread target) st)
      = (Ok m, st') /\
    (similarity <= max_val m)%Q /\
    found = Match cfg target (x (self st) + fst (snd (minMaxLoc m)))
              (y (self st) + snd (snd (minMaxLoc m))) tw (height t)
              (max_val m).
Proof.
  destruct (imread E target (ext st)) as [t|] eqn:Hread.
  - destruct (_match_template E target (Some t) cached
                (logged (EvImread target) st)) as [r st1] eqn:Hstep.
    rewrite (find_loaded W E cfg _ similarity _ _ _ _ _ Hread Hstep).
    destruct (match_template_rect W E _ _ _ _ _ _ Hstep) as (Hx & Hy & _).
    simpl in Hx, Hy.
    destruct r as [m|e]; [|discriminate].
    destruct (Qltb (max_val m) similarity) eqn:Hlt; [discriminate|].
    apply Qltb_ge in Hlt.
    destruct (len_row0 (Some t)) as [tw|]; [|discriminate].
    intros Heq. inversion Heq; subst.
    exists t, m, tw. rewrite Hx, Hy. auto.
  - rewrite (find_unreadable W E cfg _ _ _ _ Hread). discriminate.
Qed.

(** Every Match handed out by [find], [find_all] and [wait] names the
    target it was searched for.  The similarity of a Match of [find] or
    [wait] reaches the threshold of the search; the similarity of a Match
    of [find_all] passes the comparison in float32 with the threshold, that
    is, it reaches the threshold cast to single precision.  The Matches of
    [find_all] lie at offsets from the region origin that are not
    negative. *)
Theorem matches_name_target_and_reach_threshold
    (target : string) (similarity : Q) :
  (forall cached (st st' : State W) found,
     find E cfg target similarity cached st = (Ok found, st') ->
     exists s, ident found = Some (target, s) /\ (similarity <= s)%Q) /\
  (forall cached (st st' : State W) l found,
     find_all E cfg target similarity cached st = (Ok l, st') ->
     In found l ->
     exists s, ident found = Some (target, s) /\
               ge_float32 s (to_float32 similarity) = true /\
               x (self st) <= x found /\ y (self st) <= y found) /\
  (forall fuel wait_ (st st' : State W) found,
     wait E cfg fuel target wait_ similarity st = Some (Ok found, st') ->
     exists s, ident found = Some (target, s) /\ (similarity <= s)%Q).
Proof.
  assert (Hfind : forall cached (st st' : State W) found,
     find E cfg target similarity cached st = (Ok found, st') ->
     exists s, ident found = Some (target, s) /\ (similarity <= s)%Q).
  { intros cached st st' found Hf. apply find_ok_inv in Hf.
    destruct Hf as (t & m & tw & _ & _ & Hge & ->).
    exists (max_val m). split; [reflexivity | exact Hge]. }
  split; [exact Hfind|]. split.
  - intros cached st st' l found Hall Hin.
    apply find_all_ok_inv in Hall.
    destruct Hall as (t & m & Hread & Hstep & Hloop).
    destruct (match_template_rect W E _ _ _ _ _ _ Hstep) as (Hx & Hy & _).
    simpl in Hx, Hy.
    apply find_all_loop_appends in Hloop.
    destruct Hloop as (new & -> & _ & Hnew). simpl in Hin.
    destruct (Hnew found Hin)
      as (c & r & row & score & tw & th & Hp & Hrow & Hscore & ->).
    apply in_map_iff in Hp. destruct Hp as ([[r' c'] s'] & Heq & Hhit).
    simpl in Heq. inversion Heq; subst c' r'.
    apply filter_In in Hhit. destruct Hhit as [Hcell Hge]. simpl in Hge.
    pose proof Hcell as Hpos. unfold cells in Hpos.
    apply cells_from_In in Hpos. destruct Hpos as (Hr & Hc & _).
    apply cells_In in Hcell.
    destruct (getitem_cell m r c s' Hcell) as (row' & Hrow' & Hscore').
    rewrite Hrow in Hrow'. inversion Hrow'; subst row'.
    rewrite Hscore in Hscore'. inversion Hscore'; subst score.
    exists s'. simpl. rewrite Hx, Hy. repeat split; auto; lia.
  - intros fuel wait_ st st' found. rewrite wait_start.
    generalize (snd (fst (started E st))) as now_.
    generalize (snd (started E st)) as st0.
    induction fuel as [|fuel IH]; intros st0 now_; [discriminate|].
    rewrite wait_loop_step.
    destruct (Qltb _ wait_); [|discriminate].
    destruct (find E cfg target similarity false st0) as [[got|e] st1]
      eqn:Hf.
    + intros Heq. inversion Heq; subst. exact (Hfind _ _ _ _ Hf).
    + destruct e; try discriminate.
      destruct (Qltb (SCAN_RATE cfg) 0); [discriminate|]. apply IH.
Qed.

Lemma filter_length_mono {A} (p q : A -> bool) (l : list A) :
  (forall a, In a l -> q a = true -> p a = true) ->
  (List.length (filter q l) <= List.length (filter p l))%nat.
Proof.
  induction l as [|a l IH]; simpl; intros Himp; [lia|].
  assert (IH' := IH (fun b Hb => Himp b (or_intror Hb))).
  destruct (q a) eqn:Hq.
  - rewrite (Himp a (or_introl eq_refl) Hq). simpl. lia.
  - destruct (p a); simpl; lia.
Qed.

(** With a template of no rows, the loop of [find_all] raises at its first
    pair. *)
Lemma find_all_loop_no_rows (target : string) (m : Matrix)
    (pairs : list (Z * Z)) (acc l : list ImageMatch) (st st' : State W) :
  find_all_loop cfg target (Some []) m pairs acc st = (Ok l, st') ->
  pairs = [] /\ l = acc.
Proof.
  destruct pairs as [|p pairs]; simpl.
  - unfold ret. intros Heq. inversion Heq. auto.
  - unfold bind, lift, get_self. simpl. discriminate.
Qed.

(** Lowering the threshold of [find_all] never loses a Match: in the same
    state, whatever the search with the higher threshold returns is also
    returned with the lower one. *)
Theorem find_all_grows_as_threshold_falls
    (target : string) (low high : Q) (cached : bool)
    (st st1 st2 : State W) (l1 l2 : list ImageMatch) :
  (low <= high)%Q ->
  find_all E cfg target low cached st = (Ok l1, st1) ->
  find_all E cfg target high cached st = (Ok l2, st2) ->
  incl l2 l1 /\ (List.length l2 <= List.length l1)%nat.
Proof.
  intros Hle H1 H2.
  apply find_all_ok_inv in H1. destruct H1 as (t & m & Hread & Hstep & Hl1).
  apply find_all_ok_inv in H2. destruct H2 as (t' & m' & Hread' & Hstep' & Hl2).
  rewrite Hread in Hread'. inversion Hread'; subst t'.
  rewrite Hstep in Hstep'. inversion Hstep'; subst m' st2.
  assert (Himp : forall cl : Z * Z * Q,
            ge_float32 (snd cl) (to_float32 high) = true ->
            ge_float32 (snd cl) (to_float32 low) = true).
  { intros cl. apply ge_float32_mono. exact Hle. }
  destruct t as [|row t].
  - apply find_all_loop_no_rows in Hl2. destruct Hl2 as [_ ->].
    split; [intros a []|simpl; lia].
  - assert (Ht : row :: t <> []) by discriminate.
    rewrite (find_all_loop_cells W cfg target (row :: t) m) in Hl1, Hl2;
      try exact Ht;
      try (intros r c v Hin; apply filter_In in Hin; apply cells_In; tauto).
    inversion Hl1; subst l1. inversion Hl2; subst l2. simpl. split.
    + intros found Hin. apply in_map_iff in Hin.
      destruct Hin as (cl & <- & Hcl). apply in_map.
      apply filter_In in Hcl. apply filter_In. split; [tauto|].
      apply Himp. tauto.
    + rewrite !length_map. apply filter_length_mono. intros a _. apply Himp.
Qed.

(** For a threshold that is a single-precision value, [find], [find_all]
    and [exists] agree on one correlation result: [find] fails and
    [exists] is False exactly when [find_all] is empty, and the Match of
    [find] is in the list of [find_all] with a similarity that no other
    Match of the list exceeds.  (For other thresholds [find_all] compares
    with the threshold cast to float32 and the three can disagree.) *)
Theorem find_is_best_of_find_all
    (target : string) (similarity : Q) (cached : bool)
    (st st' : State W) (t : Gray) (m : Matrix) :
  single_exact similarity ->
  imread E target (ext st) = Some t ->
  t <> [] ->
  _match_template E target (Some t) cached (logged (EvImread target) st)
    = (Ok m, st') ->
  cells m <> [] ->
  exists l,
    find_all E cfg target similarity cached st = (Ok l, st') /\
    (fst (find E cfg target similarity cached st) = Raise FindFailed <->
     l = []) /\
    (fst (exists_ E target similarity cached st) = Ok false <-> l = []) /\
    (forall found,
       fst (find E cfg target similarity cached st) = Ok found ->
       In found l /\
       forall other no so nf sf,
         In other l -> ident other = Some (no, so) ->
         ident found = Some (nf, sf) -> (so <= sf)%Q).
Proof.
  intros Hexact Hread Ht Hstep Hcells.
  assert (Hpass : forall s,
            ge_float32 s (to_float32 similarity) = true <->
            (similarity <= s)%Q).
  { intros s. rewrite (ge_float32_exact s similarity Hexact).
    apply Qle_bool_iff. }
  destruct (minMaxLoc_max m Hcells)
    as (mn & mnl & maxCol & maxRow & Hmm & Hat & Hub).
  eexists.
  split; [apply (find_all_loaded W E cfg _ _ _ _ _ _ _ Hread Ht Hstep)|].
  rewrite exists_unfold, match_template_unloaded, Hread, Hstep.
  rewrite (find_loaded W E cfg _ similarity _ _ _ _ _ Hread Hstep).
  rewrite (len_row0_loaded t Ht), Hmm. simpl.
  set (hits := filter (fun cl => ge_float32 (snd cl) (to_float32 similarity)) (cells m)).
  assert (Hempty : Qltb (max_val m) similarity = true <-> hits = []).
  { split.
    - intros Hlt. apply Qltb_lt in Hlt.
      destruct hits as [|[[r c] v] hits'] eqn:Hh; [reflexivity|]. exfalso.
      assert (Hin : In (r, c, v) hits) by (rewrite Hh; left; reflexivity).
      apply filter_In in Hin. destruct Hin as [Hcell Hge].
      apply cells_In in Hcell. apply Hpass in Hge. simpl in Hge.
      apply (Qlt_not_le _ _ Hlt). exact (Qle_trans _ _ _ Hge (Hub _ _ _ Hcell)).
    - intros Hnil. destruct (Qltb (max_val m) similarity) eqn:Hlt;
        [reflexivity|]. exfalso. apply Qltb_ge in Hlt.
      assert (Hin : In (maxRow, maxCol, max_val m) hits).
      { apply filter_In. split; [apply cells_In; exact Hat|].
        apply Hpass. exact Hlt. }
      rewrite Hnil in Hin. exact Hin. }
  assert (Hmap : forall f : Z * Z * Q -> ImageMatch,
            map f hits = [] <-> hits = []).
  { intros f. destruct hits; simpl; split; congruence. }
  destruct (Qltb (max_val m) similarity) eqn:Hlt; simpl.
  - assert (Hnil : hits = []) by (apply Hempty; reflexivity).
    rewrite Hnil. simpl. repeat split; auto; discriminate.
  - assert (Hne : hits <> []).
    { intros Hnil. apply Hempty in Hnil. discriminate. }
    split; [|split].
    + split; [discriminate|]. intros Hnil. apply Hmap in Hnil. tauto.
    + split; [discriminate|]. intros Hnil. apply Hmap in Hnil. tauto.
    + intros found Heq. inversion Heq; subst found. clear Heq.
      apply Qltb_ge in Hlt.
      destruct (match_template_rect W E _ _ _ _ _ _ Hstep) as (Hx & Hy & _).
      simpl in Hx, Hy. split.
      * apply in_map_iff. exists (maxRow, maxCol, max_val m). split.
        -- unfold match_of_cell. simpl. reflexivity.
        -- apply filter_In. split; [apply cells_In; exact Hat|].
           apply Hpass. exact Hlt.
      * intros other no so nf sf Hin Hso Hsf. apply in_map_iff in Hin.
        destruct Hin as ([[r c] v] & <- & Hcl).
        apply filter_In in Hcl. destruct Hcl as [Hcell _].
        apply cells_In in Hcell.
        unfold match_of_cell in Hso. simpl in Hso, Hsf.
        inversion Hso; subst so. inversion Hsf; subst sf.
        exact (Hub _ _ _ Hcell).
Qed.

(** A search asked to use the cache while a capture is held takes no
    capture: it reads the template, correlates against the held image and
    leaves the instance and the screen alone. *)
Theorem cached_search_reuses_held_capture
    (target : string) (similarity : Q) (st : State W) (t g : Gray) :
  imread E target (ext st) = Some t ->
  _captured (self st) = Some g ->
  _match_template E target None true st =
    (cv_result (matchTemplate E g t), logged (EvImread target) st) /\
  snd (find E cfg target similarity true st) = logged (EvImread target) st /\
  snd (find_all E cfg target similarity true st)
    = logged (EvImread target) st /\
  snd (exists_ E target similarity true st) = logged (EvImread target) st.
Proof.
  intros Hread Hheld.
  assert (Hstep :
    _match_template E target (Some t) true (logged (EvImread target) st) =
    (cv_result (matchTemplate E g t), logged (EvImread target) st)).
  { rewrite match_template_loaded. simpl. rewrite Hheld. reflexivity. }
  pose proof (searches_end_with_step W E cfg target similarity true st t Hread)
    as Hend.
  rewrite Hstep in Hend. simpl in Hend.
  split; [|exact Hend].
  rewrite match_template_unloaded, Hread. exact Hstep.
Qed.

(** [shift_region] moves the origin and nothing else; the held capture
    stays.  An uncached search after it captures at the new origin; a
    cached one correlates against the capture taken before the move and
    reports its Match relative to the new origin. *)
Theorem shift_region_keeps_capture
    (new_x new_y : Z) (target : string) (similarity : Q)
    (st : State W) (t : Gray) :
  imread E target (ext st) = Some t ->
  let st1 := snd (shift_region new_x new_y st) in
  self st1 = set_xy new_x new_y (self st) /\
  ext st1 = ext st /\ trace st1 = trace st /\
  trace (snd (find E cfg target similarity false st1)) =
    EvScreenshot new_x new_y (w (self st)) (h (self st))
      :: EvImread target :: trace st /\
  (forall g m,
     _captured (self st) = Some g ->
     matchTemplate E g t = Some m ->
     t <> [] -> cells m <> [] -> (similarity <= max_val m)%Q ->
     exists maxRow maxCol found,
       cell m maxRow maxCol = Some (max_val m) /\
       find E cfg target similarity true st1 =
         (Ok found, logged (EvImread target) st1) /\
       x found = new_x + maxCol /\ y found = new_y + maxRow /\
       w found = width t /\ h found = height t /\
       ident found = Some (target, max_val m)).
Proof.
  intros Hread st1.
  assert (Hst1 : st1 = mkState (set_xy new_x new_y (self st)) (ext st)
                         (trace st)) by reflexivity.
  assert (Hread1 : imread E target (ext st1) = Some t)
    by (rewrite Hst1; exact Hread).
  split; [rewrite Hst1; reflexivity|].
  split; [rewrite Hst1; reflexivity|].
  split; [rewrite Hst1; reflexivity|]. split.
  - destruct (searches_end_with_step W E cfg target similarity false st1 t
                Hread1) as (-> & _).
    rewrite match_template_loaded. rewrite Hst1. reflexivity.
  - intros g m Hheld Hm Ht Hcells Hge.
    destruct (minMaxLoc_max m Hcells)
      as (mn & mnl & maxCol & maxRow & Hmm & Hat & _).
    eexists maxRow, maxCol, _. split; [exact Hat|].
    assert (Hstep :
      _match_template E target (Some t) true (logged (EvImread target) st1) =
      (Ok m, logged (EvImread target) st1)).
    { rewrite match_template_loaded. rewrite Hst1. simpl.
      rewrite Hheld. simpl. unfold lift. rewrite Hm. reflexivity. }
    rewrite (find_loaded W E cfg _ similarity _ _ _ _ _ Hread1 Hstep).
    apply Qltb_ge in Hge. rewrite Hge, (len_row0_loaded t Ht), Hmm.
    rewrite Hst1. split; [reflexivity|]. repeat split.
Qed.

End SearchLaws.




(** * Further properties of the pointer methods *)

Section PointerLaws.

Variable W : Type.
Variable E : Env W.
Variable cfg : Config W.

Ltac pointer_run :=
  unfold click, hover, randint, run_hook, call_hook;
  unfold bind, raise, ret, call, get_self; simpl.

Ltac give_events :=
  match goal with
  | |- exists pre, ?t = pre ++ ?t /\ _ => exists []
  | |- exists pre, ?a :: ?t = pre ++ ?t /\ _ => exists [a]
  | |- exists pre, ?a :: ?b :: ?t = pre ++ ?t /\ _ => exists [a; b]
  | |- exists pre, ?a :: ?b :: ?c :: ?t = pre ++ ?t /\ _ => exists [a; b; c]
  | |- exists pre, ?a :: ?b :: ?c :: ?d :: ?t = pre ++ ?t /\ _ =>
      exists [a; b; c; d]
  | |- exists pre, ?a :: ?b :: ?c :: ?d :: ?e :: ?t = pre ++ ?t /\ _ =>
      exists [a; b; c; d; e]
  end; split; [reflexivity|].

(** Closes a goal about the members of an explicit list of events. *)
Ltac by_cases_on_events :=
  repeat match goal with
         | H : In _ (_ :: _) |- _ => destruct H as [H | H]
         | H : In _ [] |- _ => destruct H
         | H : @eq Event _ _ |- _ =>
             first [discriminate H | inversion H; clear H; subst]
         | H : _ = _ |- _ => progress (subst; simpl in * )
         | H : _ = _ |- _ => discriminate H
         | H : Some _ = Some _ |- _ => inversion H; clear H
         end.

(** [hover] hands on points of the closed rectangle [x, x + w] by
    [y, y + h] only, it never clicks, and on a rectangle whose width and
    height are not negative it does hand a point on. *)
Theorem hover_point_within_rectangle (st : State W) :
  exists pre,
    trace (snd (hover E cfg st)) = pre ++ trace st /\
    ~ In EvClick pre /\
    (forall ev px py,
       In ev pre -> point_of ev = Some (px, py) ->
       x (self st) <= px <= x (self st) + w (self st) /\
       y (self st) <= py <= y (self st) + h (self st)) /\
    (0 <= w (self st) -> 0 <= h (self st) ->
     exists ev px py, In ev pre /\ point_of ev = Some (px, py)).
Proof.
  set (s := self st). pointer_run. fold s.
  destruct (Z.ltb_spec (x s + w s) (x s)) as [Hx | Hx]; simpl.
  { give_events. split; [intros []|]. split; [intros ev px py []|].
    intros; lia. }
  destruct (getrandbits E (ext st)) as [b1 e1]. simpl.
  destruct (Z.ltb_spec (y s + h s) (y s)) as [Hy | Hy]; simpl.
  { give_events. split; [intros Hin; by_cases_on_events|].
    split; [intros ev px py Hin Hp; by_cases_on_events|]. intros; lia. }
  destruct (getrandbits E e1) as [b2 e2]. simpl.
  pose proof (randint_range _ _ b1 Hx) as Hpx.
  pose proof (randint_range _ _ b2 Hy) as Hpy.
  set (px0 := x s + b1 mod (x s + w s - x s + 1)) in *.
  set (py0 := y s + b2 mod (y s + h s - y s + 1)) in *.
  destruct (override_hover_method cfg) as [f|]; simpl.
  - destruct (f s px0 py0 e2) as [[[]|e] e3]; simpl.
    + destruct (hover_callback cfg) as [g|]; simpl.
      * destruct (g s px0 py0 e3) as [r e4]. simpl. give_events.
        split; [intros Hin; by_cases_on_events|]. split.
        -- intros ev px py Hin Hp. by_cases_on_events; auto.
        -- intros _ _. eexists _, px0, py0. split; [left; reflexivity|].
           reflexivity.
      * give_events. split; [intros Hin; by_cases_on_events|]. split.
        -- intros ev px py Hin Hp. by_cases_on_events; auto.
        -- intros _ _. eexists _, px0, py0. split; [left; reflexivity|].
           reflexivity.
    + give_events. split; [intros Hin; by_cases_on_events|]. split.
      * intros ev px py Hin Hp. by_cases_on_events; auto.
      * intros _ _. eexists _, px0, py0. split; [left; reflexivity|].
        reflexivity.
  - destruct (hover_callback cfg) as [g|]; simpl.
    + destruct (g s px0 py0 (moveTo E px0 py0 _ e2)) as [r e4]. simpl.
      give_events. split; [intros Hin; by_cases_on_events|]. split.
      * intros ev px py Hin Hp. by_cases_on_events; auto.
      * intros _ _. eexists _, px0, py0. split; [left; reflexivity|].
        reflexivity.
    + give_events. split; [intros Hin; by_cases_on_events|]. split.
      * intros ev px py Hin Hp. by_cases_on_events; auto.
      * intros _ _. eexists _, px0, py0. split; [left; reflexivity|].
        reflexivity.
Qed.

(** With an override hook installed, [click] makes no pointer call of its
    own.  The click callback only ever follows an action at the same point
    (the override hook, or the move and the click), and all the points
    that one call of [click] hands on are the same point. *)
Theorem click_override_replaces_pointer_calls (pad : Pad) (st : State W) :
  exists pre,
    trace (snd (click E cfg pad st)) = pre ++ trace st /\
    (override_click_method cfg <> None ->
     ~ In EvClick pre /\ forall px py d, ~ In (EvMoveTo px py d) pre) /\
    (forall px py,
       In (EvClickCallback px py) pre ->
       In (EvOverrideClick px py pad) pre \/
       (In (EvMoveTo px py (MOUSE_MOVE_SPEED (self st))) pre /\
        In EvClick pre)) /\
    (forall ev1 ev2 p1 p2,
       In ev1 pre -> In ev2 pre ->
       point_of ev1 = Some p1 -> point_of ev2 = Some p2 -> p1 = p2).
Proof.
  destruct pad as [[[top right] bottom] left].
  set (s := self st). pointer_run. fold s.
  destruct (Z.ltb_spec (x s + w s + right) (x s - left)) as [Hx | Hx]; simpl.
  { give_events. split; [intros _; split; [intros []|intros px py d []]|].
    split; [intros px py []|]. intros ev1 ev2 p1 p2 []. }
  destruct (getrandbits E (ext st)) as [b1 e1]. simpl.
  destruct (Z.ltb_spec (y s + h s + bottom) (y s - top)) as [Hy | Hy]; simpl.
  { give_events.
    split; [intros _; split; [|intros px py d]; intros Hin;
            by_cases_on_events|].
    split; [intros px py Hin; by_cases_on_events|].
    intros ev1 ev2 p1 p2 H1 H2 Hp1 Hp2. by_cases_on_events. }
  destruct (getrandbits E e1) as [b2 e2]. simpl.
  set (px0 := x s - left + b1 mod (x s + w s + right - (x s - left) + 1)).
  set (py0 := y s - top + b2 mod (y s + h s + bottom - (y s - top) + 1)).
  destruct (override_click_method cfg) as [f|]; simpl.
  - destruct (f s px0 py0 (top, right, bottom, left) e2) as [[[]|e] e3];
      simpl.
    + destruct (click_callback cfg) as [g|]; simpl.
      * destruct (g s px0 py0 e3) as [r e4]. simpl. give_events.
        split; [intros _; split; [|intros px py d]; intros Hin;
                by_cases_on_events|].
        split.
        -- intros px py Hin. by_cases_on_events.
           left. right. left. reflexivity.
        -- intros ev1 ev2 p1 p2 H1 H2 Hp1 Hp2.
           by_cases_on_events; reflexivity.
      * give_events.
        split; [intros _; split; [|intros px py d]; intros Hin;
                by_cases_on_events|].
        split; [intros px py Hin; by_cases_on_events|].
        intros ev1 ev2 p1 p2 H1 H2 Hp1 Hp2.
        by_cases_on_events; reflexivity.
    + give_events.
      split; [intros _; split; [|intros px py d]; intros Hin;
              by_cases_on_events|].
      split; [intros px py Hin; by_cases_on_events|].
      intros ev1 ev2 p1 p2 H1 H2 Hp1 Hp2.
      by_cases_on_events; reflexivity.
  - destruct (click_callback cfg) as [g|]; simpl.
    + destruct (g s px0 py0 (mouse_click E (moveTo E px0 py0 _ e2)))
        as [r e4]. simpl. give_events.
      split; [intros Hno; exfalso; apply Hno; reflexivity|]. split.
      * intros px py Hin. by_cases_on_events.
        right. split; [right; right; left|right; left]; reflexivity.
      * intros ev1 ev2 p1 p2 H1 H2 Hp1 Hp2.
        by_cases_on_events; reflexivity.
    + give_events.
      split; [intros Hno; exfalso; apply Hno; reflexivity|].
      split; [intros px py Hin; by_cases_on_events|].
      intros ev1 ev2 p1 p2 H1 H2 Hp1 Hp2.
      by_cases_on_events; reflexivity.
Qed.

(** On a rectangle of negative width [hover] raises ValueError before it
    draws or moves anything, and so does [click] when the pad leaves the
    range of columns empty; with an empty range of rows only, the error
    comes after the draw of the column and still before any pointer
    action. *)
Theorem pointer_on_empty_range_raises (st : State W) :
  (w (self st) < 0 -> hover E cfg st = (Raise ValueError, st)) /\
  (forall top right bottom left,
     w (self st) + left + right < 0 ->
     click E cfg (top, right, bottom, left) st = (Raise ValueError, st)) /\
  (0 <= w (self st) -> h (self st) < 0 ->
   fst (hover E cfg st) = Raise ValueError /\
   trace (snd (hover E cfg st)) = EvRandom :: trace st) /\
  (forall top right bottom left,
     0 <= w (self st) + left + right ->
     h (self st) + top + bottom < 0 ->
     fst (click E cfg (top, right, bottom, left) st) = Raise ValueError /\
     trace (snd (click E cfg (top, right, bottom, left) st))
       = EvRandom :: trace st).
Proof.
  set (s := self st). repeat split.
  - intros Hw. pointer_run. fold s.
    destruct (Z.ltb_spec (x s + w s) (x s)); [|lia]. reflexivity.
  - intros top right bottom left Hw. pointer_run. fold s.
    destruct (Z.ltb_spec (x s + w s + right) (x s - left)); [|lia].
    reflexivity.
  - pointer_run. fold s.
    destruct (Z.ltb_spec (x s + w s) (x s)); [lia|]. simpl.
    destruct (getrandbits E (ext st)) as [b1 e1]. simpl.
    destruct (Z.ltb_spec (y s + h s) (y s)); [|lia]. reflexivity.
  - pointer_run. fold s.
    destruct (Z.ltb_spec (x s + w s) (x s)); [lia|]. simpl.
    destruct (getrandbits E (ext st)) as [b1 e1]. simpl.
    destruct (Z.ltb_spec (y s + h s) (y s)); [|lia]. reflexivity.
  - pointer_run. fold s.
    destruct (Z.ltb_spec (x s + w s + right) (x s - left)); [lia|]. simpl.
    destruct (getrandbits E (ext st)) as [b1 e1]. simpl.
    destruct (Z.ltb_spec (y s + h s + bottom) (y s - top)); [|lia].
    reflexivity.
  - pointer_run. fold s.
    destruct (Z.ltb_spec (x s + w s + right) (x s - left)); [lia|]. simpl.
    destruct (getrandbits E (ext st)) as [b1 e1]. simpl.
    destruct (Z.ltb_spec (y s + h s + bottom) (y s - top)); [|lia].
    reflexivity.
Qed.





End PointerLaws.



(** * What a search leaves alone *)

Section FrameLaws.

Variable W : Type.
Variable E : Env W.
Variable cfg : Config W.

Lemma same_but_capture_trans (a b c : ImageMatch) :
  same_but_capture a b -> same_but_capture b c -> same_but_capture a c.
Proof. unfold same_but_capture. congruence. Qed.

Lemma match_template_frame (target : string) (template : option Gray)
    (cached : bool) (st : State W) :
  same_but_capture (self st)
    (self (snd (_match_template E target template cached st))).
Proof.
  assert (Hloaded : forall t s,
    same_but_capture (self s)
      (self (snd (_match_template E target (Some t) cached s)))).
  { intros t s. rewrite match_template_loaded.
    destruct (negb cached || is_None (_captured (self s))); simpl.
    - reflexivity.
    - unfold cv2_matchTemplate, raise, lift.
      destruct (_captured (self s)); reflexivity. }
  destruct template as [t|]; [apply Hloaded|].
  rewrite match_template_unloaded.
  destruct (imread E target (ext st)) as [t|]; [|reflexivity].
  apply (Hloaded t (logged (EvImread target) st)).
Qed.

Lemma find_frame (target : string) (similarity : Q) (cached : bool)
    (st : State W) :
  same_but_capture (self st)
    (self (snd (find E cfg target similarity cached st))).
Proof.
  destruct (imread E target (ext st)) as [t|] eqn:Hread.
  - destruct (searches_end_with_step W E cfg target similarity cached st t
                Hread) as (-> & _).
    apply (match_template_frame target (Some t) cached
             (logged (EvImread target) st)).
  - rewrite (find_unreadable W E cfg _ _ _ _ Hread). reflexivity.
Qed.

Lemma exists_frame (target : string) (similarity : Q) (cached : bool)
    (st : State W) :
  same_but_capture (self st)
    (self (snd (exists_ E target similarity cached st))).
Proof.
  destruct (imread E target (ext st)) as [t|] eqn:Hread.
  - destruct (searches_end_with_step W E cfg target similarity cached st t
                Hread) as (_ & _ & ->).
    apply (match_template_frame target (Some t) cached
             (logged (EvImread target) st)).
  - rewrite (exists_unreadable W E _ _ _ _ Hread). reflexivity.
Qed.

Lemma wait_loop_frame (fuel : nat) (target : string) (wait_ similarity : Q)
    (start now_ : Z) (st st' : State W) (r : Res ImageMatch) :
  wait_loop E cfg fuel target wait_ similarity start now_ st = Some (r, st') ->
  same_but_capture (self st) (self st').
Proof.
  revert now_ st. induction fuel as [|fuel IH]; intros now_ st;
    [discriminate|].
  rewrite wait_loop_step. destruct (Qltb _ wait_).
  - pose proof (find_frame target similarity false st) as Hf.
    destruct (find E cfg target similarity false st) as [[found|e] st1].
    + intros Heq. inversion Heq; subst. exact Hf.
    + simpl in Hf.
      assert (Hdone : Some (Raise e, st1) = Some (r, st') ->
                      same_but_capture (self st) (self st')).
      { intros Heq. inversion Heq; subst. exact Hf. }
      destruct e; try exact Hdone.
      destruct (Qltb (SCAN_RATE cfg) 0).
      { intros Heq. inversion Heq; subst. exact Hf. }
      intros Hloop. apply IH in Hloop. simpl in Hloop.
      exact (same_but_capture_trans _ _ _ Hf Hloop).
  - intros Heq. inversion Heq; subst. reflexivity.
Qed.

Lemma wait_vanish_loop_frame (fuel : nat) (target : string)
    (wait_ similarity : Q) (start now_ : Z) (st st' : State W)
    (r : Res bool) :
  wait_vanish_loop E cfg fuel target wait_ similarity start now_ st
    = Some (r, st') ->
  same_but_capture (self st) (self st').
Proof.
  revert now_ st. induction fuel as [|fuel IH]; intros now_ st;
    [discriminate|].
  rewrite wait_vanish_loop_step. destruct (Qltb _ wait_).
  - pose proof (exists_frame target similarity false st) as Hf.
    destruct (exists_ E target similarity false st) as [[[|]|e] st1].
    + destruct (Qltb (SCAN_RATE cfg) 0).
      { intros Heq. inversion Heq; subst. exact Hf. }
      intros Hloop. apply IH in Hloop. simpl in Hloop.
      exact (same_but_capture_trans _ _ _ Hf Hloop).
    + intros Heq. inversion Heq; subst. exact Hf.
    + intros Heq. inversion Heq; subst. exact Hf.
  - intros Heq. inversion Heq; subst. reflexivity.
Qed.

(** No search moves, resizes or renames the instance it runs on: after
    [find], [find_all], [exists], [wait] and [wait_vanish] the instance is
    what it was, up to the capture it holds. *)
Theorem searches_change_only_the_capture
    (target : string) (similarity : Q) (st : State W) :
  (forall cached,
     same_but_capture (self st)
       (self (snd (find E cfg target similarity cached st))) /\
     same_but_capture (self st)
       (self (snd (find_all E cfg target similarity cached st))) /\
     same_but_capture (self st)
       (self (snd (exists_ E target similarity cached st)))) /\
  (forall fuel wait_ r st',
     wait E cfg fuel target wait_ similarity st = Some (r, st') ->
     same_but_capture (self st) (self st')) /\
  (forall fuel wait_ r st',
     wait_vanish E cfg fuel target wait_ similarity st = Some (r, st') ->
     same_but_capture (self st) (self st')).
Proof.
  split; [|split].
  - intros cached. split; [apply find_frame|]. split; [|apply exists_frame].
    destruct (imread E target (ext st)) as [t|] eqn:Hread.
    + destruct (searches_end_with_step W E cfg target similarity cached st t
                  Hread) as (_ & -> & _).
      apply (match_template_frame target (Some t) cached
               (logged (EvImread target) st)).
    + rewrite (find_all_unreadable W E cfg _ _ _ _ Hread). reflexivity.
  - intros fuel wait_ r st'. rewrite wait_start. intros Hloop.
    apply wait_loop_frame in Hloop. exact Hloop.
  - intros fuel wait_ r st'. rewrite wait_vanish_start. intros Hloop.
    apply wait_vanish_loop_frame in Hloop. exact Hloop.
Qed.

End FrameLaws.

(** * Further properties of the polling loops *)

Section PollingLaws.

Variable W : Type.
Variable E : Env W.
Variable cfg : Config W.

(** The exceptions [find] can raise. *)
Lemma find_raises (target : string) (similarity : Q) (cached : bool)
    (st st' : State W) (e : Exn) :
  find E cfg target similarity cached st = (Raise e, st') ->
  e = FindFailed \/ e = AttributeError \/ e = CvError \/ e = IndexError.
Proof.
  destruct (imread E target (ext st)) as [t|] eqn:Hread.
  - destruct (_match_template E target (Some t) cached
                (logged (EvImread target) st)) as [r st1] eqn:Hstep.
    rewrite (find_loaded W E cfg _ similarity _ _ _ _ _ Hread Hstep).
    destruct r as [m|e1].
    + destruct (Qltb (max_val m) similarity).
      * intros Heq. inversion Heq. auto.
      * unfold len_row0.
        destruct (getitem t 0) as [row|e2] eqn:Hrow; [discriminate|].
        apply getitem_raises in Hrow. subst e2.
        intros Heq. inversion Heq. auto.
    + apply match_template_raises in Hstep.
      intros Heq. inversion Heq; subst. tauto.
  - rewrite (find_unreadable W E cfg _ _ _ _ Hread).
    intros Heq. inversion Heq. auto.
Qed.

(** The exceptions [exists] can raise. *)
Lemma exists_raises (target : string) (similarity : Q) (cached : bool)
    (st st' : State W) (e : Exn) :
  exists_ E target similarity cached st = (Raise e, st') ->
  e = AttributeError \/ e = CvError.
Proof.
  rewrite exists_unfold.
  destruct (_match_template E target None cached st) as [[m|e1] st1]
    eqn:Hstep; [discriminate|].
  apply match_template_raises in Hstep.
  intros Heq. inversion Heq; subst. exact Hstep.
Qed.

(** What [exists] adds to the trace: the read of the template, and a
    capture or none. *)
Lemma exists_trace_shape (target : string) (similarity : Q) (cached : bool)
    (st : State W) :
  let tr := trace (snd (exists_ E target similarity cached st)) in
  tr = EvImread target :: trace st \/
  tr = EvScreenshot (x (self st)) (y (self st)) (w (self st)) (h (self st))
         :: EvImread target :: trace st.
Proof.
  simpl. destruct (imread E target (ext st)) as [t|] eqn:Hread.
  - destruct (searches_end_with_step W E cfg target similarity cached st t
                Hread) as (_ & _ & ->).
    rewrite match_template_loaded.
    destruct (negb cached || _).
    + right. reflexivity.
    + left. unfold cv2_matchTemplate, raise, lift.
      destruct (_captured _); reflexivity.
  - rewrite (exists_unreadable W E _ _ _ _ Hread). left. reflexivity.
Qed.

(** [wait_vanish] tests the timeout before it looks: once the time between
    its two clock readings has reached the timeout it raises VanishFailed
    without a search.  When the first test passes and the target is not
    there, it returns True at once, without any sleep. *)
Theorem wait_vanish_first_round
    (target : string) (wait_ similarity : Q) (st : State W) :
  let t0 := fst (fst (started E st)) in
  let t1 := snd (fst (started E st)) in
  let st2 := snd (started E st) in
  ((wait_ <= total_seconds (t1 - t0))%Q ->
   forall fuel,
     wait_vanish E cfg (S fuel) target wait_ similarity st =
       Some (Raise VanishFailed, st2)) /\
  ((total_seconds (t1 - t0) < wait_)%Q ->
   fst (exists_ E target similarity false st2) = Ok false ->
   forall fuel,
     exists st',
       wait_vanish E cfg (S fuel) target wait_ similarity st =
         Some (Ok true, st') /\
       exists pre,
         trace st' = pre ++ trace st /\ forall d, ~ In (EvSleep d) pre).
Proof.
  intros t0 t1 st2. split.
  - intros Hle fuel. rewrite wait_vanish_start, wait_vanish_loop_step.
    fold t0 t1 st2. apply Qltb_ge in Hle. rewrite Hle. reflexivity.
  - intros Hlt Hgone fuel. rewrite wait_vanish_start, wait_vanish_loop_step.
    fold t0 t1 st2. apply Qltb_lt in Hlt. rewrite Hlt.
    pose proof (exists_trace_shape target similarity false st2) as Hshape.
    destruct (exists_ E target similarity false st2) as [r st3].
    simpl in Hgone, Hshape. subst r. exists st3. split; [reflexivity|].
    destruct Hshape as [Hs | Hs]; rewrite Hs.
    + exists [EvImread target; EvNow; EvNow]. split; [reflexivity|].
      intros d [H | [H | [H | []]]]; discriminate.
    + eexists [_; EvImread target; EvNow; EvNow]. split; [reflexivity|].
      intros d [H | [H | [H | [H | []]]]]; discriminate.
Qed.

End PollingLaws.

(** * Termination of the polling loops *)

(** The loops stop as soon as the elapsed microseconds reach the ceiling
    of the timeout in microseconds. *)
Lemma timeout_reached (wait_ : Q) (d : Z) :
  Qceiling (wait_ * 1000000) <= d -> (wait_ <= total_seconds d)%Q.
Proof.
  intros Hd.
  assert (H1 : (wait_ * 1000000 <= inject_Z d)%Q).
  { eapply Qle_trans; [apply Qle_ceiling|]. rewrite <- Zle_Qle. exact Hd. }
  destruct wait_ as [n dn]. unfold total_seconds, Qle in *. simpl in *. lia.
Qed.

Section Progress.

Variable W : Type.
Variable E : Env W.
Variable cfg : Config W.

(** The time of the outside world, in microseconds, and a lower bound on
    what one sleep of [SCAN_RATE] adds to it. *)
Variable clock : W -> Z.
Variable delta : Z.

Hypothesis delta_positive : 0 < delta.
Hypothesis now_reads_clock :
  forall e, fst (now E e) = clock e /\ clock e <= clock (snd (now E e)).
Hypothesis sleep_advances :
  forall e, clock e + delta <= clock (sleep E (SCAN_RATE cfg) e).
Hypothesis screenshot_keeps_time :
  forall rx ry rw rh e, clock e <= clock (snd (screenshot E rx ry rw rh e)).

Lemma match_template_clock (target : string) (t : Gray) (cached : bool)
    (st : State W) :
  clock (ext st) <=
  clock (ext (snd (_match_template E target (Some t) cached st))).
Proof.
  rewrite match_template_loaded.
  destruct (negb cached || _); simpl.
  - apply screenshot_keeps_time.
  - unfold cv2_matchTemplate, raise, lift.
    destruct (_captured (self st)); simpl; lia.
Qed.

Lemma find_clock (target : string) (similarity : Q) (cached : bool)
    (st : State W) :
  clock (ext st) <= clock (ext (snd (find E cfg target similarity cached st))).
Proof.
  destruct (imread E target (ext st)) as [t|] eqn:Hread.
  - destruct (searches_end_with_step W E cfg target similarity cached st t
                Hread) as (-> & _).
    apply (match_template_clock target t cached (logged (EvImread target) st)).
  - rewrite (find_unreadable W E cfg _ _ _ _ Hread). simpl. lia.
Qed.

Lemma exists_clock (target : string) (similarity : Q) (cached : bool)
    (st : State W) :
  clock (ext st) <= clock (ext (snd (exists_ E target similarity cached st))).
Proof.
  destruct (imread E target (ext st)) as [t|] eqn:Hread.
  - destruct (searches_end_with_step W E cfg target similarity cached st t
                Hread) as (_ & _ & ->).
    apply (match_template_clock target t cached (logged (EvImread target) st)).
  - rewrite (exists_unreadable W E _ _ _ _ Hread). simpl. lia.
Qed.

(** After the pause the clock reading has grown by [delta] at least, and
    it is not ahead of the world. *)
Lemma paused_clock (st : State W) :
  clock (ext st) + delta <= fst (paused E cfg st) /\
  fst (paused E cfg st) <= clock (ext (snd (paused E cfg st))).
Proof.
  unfold paused. simpl.
  destruct (now_reads_clock (sleep E (SCAN_RATE cfg) (ext st))) as [-> Hle].
  split; [apply sleep_advances | exact Hle].
Qed.

Lemma wait_loop_returns (target : string) (wait_ similarity : Q) (start : Z)
    (k : nat) :
  forall now_ st,
    now_ <= clock (ext st) ->
    Qceiling (wait_ * 1000000) - (now_ - start) <= delta * Z.of_nat k ->
    exists r st',
      wait_loop E cfg (S k) target wait_ similarity start now_ st
        = Some (r, st').
Proof.
  induction k as [|k IH]; intros now_ st Hnow Hleft;
    rewrite wait_loop_step.
  - assert (Hdone : Qltb (total_seconds (now_ - start)) wait_ = false).
    { apply Qltb_ge. apply timeout_reached. lia. }
    rewrite Hdone. eauto.
  - destruct (Qltb _ wait_); [|eauto].
    pose proof (find_clock target similarity false st) as Hclock.
    destruct (find E cfg target similarity false st) as [[found|e] st1];
      [eauto|].
    simpl in Hclock.
    destruct e; eauto.
    destruct (Qltb (SCAN_RATE cfg) 0); [eauto|].
    destruct (paused_clock st1) as [Hgrow Hahead].
    apply IH; [exact Hahead | lia].
Qed.

Lemma wait_vanish_loop_returns (target : string) (wait_ similarity : Q)
    (start : Z) (k : nat) :
  forall now_ st,
    now_ <= clock (ext st) ->
    Qceiling (wait_ * 1000000) - (now_ - start) <= delta * Z.of_nat k ->
    exists r st',
      wait_vanish_loop E cfg (S k) target wait_ similarity start now_ st
        = Some (r, st').
Proof.
  induction k as [|k IH]; intros now_ st Hnow Hleft;
    rewrite wait_vanish_loop_step.
  - assert (Hdone : Qltb (total_seconds (now_ - start)) wait_ = false).
    { apply Qltb_ge. apply timeout_reached. lia. }
    rewrite Hdone. eauto.
  - destruct (Qltb _ wait_); [|eauto].
    pose proof (exists_clock target similarity false st) as Hclock.
    destruct (exists_ E target similarity false st) as [[[|]|e] st1];
      eauto.
    simpl in Hclock.
    destruct (Qltb (SCAN_RATE cfg) 0); [eauto|].
    destruct (paused_clock st1) as [Hgrow Hahead].
    apply IH; [exact Hahead | lia].
Qed.

(** More fuel does not change what a loop that returned has returned. *)
Lemma wait_loop_more_fuel (target : string) (wait_ similarity : Q)
    (start : Z) (k : nat) :
  forall now_ st out,
    wait_loop E cfg k target wait_ similarity start now_ st = Some out ->
    forall k', (k <= k')%nat ->
    wait_loop E cfg k' target wait_ similarity start now_ st = Some out.
Proof.
  induction k as [|k IH]; intros now_ st out; [discriminate|].
  intros Hrun k' Hk. destruct k' as [|k']; [lia|].
  rewrite wait_loop_step in *.
  destruct (Qltb _ wait_); [|exact Hrun].
  destruct (find E cfg target similarity false st) as [[found|e] st1];
    [exact Hrun|].
  destruct e; try exact Hrun.
  destruct (Qltb (SCAN_RATE cfg) 0); [exact Hrun|].
  apply (IH _ _ _ Hrun). lia.
Qed.

Lemma wait_vanish_loop_more_fuel (target : string) (wait_ similarity : Q)
    (start : Z) (k : nat) :
  forall now_ st out,
    wait_vanish_loop E cfg k target wait_ similarity start now_ st
      = Some out ->
    forall k', (k <= k')%nat ->
    wait_vanish_loop E cfg k' target wait_ similarity start now_ st
      = Some out.
Proof.
  induction k as [|k IH]; intros now_ st out; [discriminate|].
  intros Hrun k' Hk. destruct k' as [|k']; [lia|].
  rewrite wait_vanish_loop_step in *.
  destruct (Qltb _ wait_); [|exact Hrun].
  destruct (exists_ E target similarity false st) as [[[|]|e] st1];
    try exact Hrun.
  destruct (Qltb (SCAN_RATE cfg) 0); [exact Hrun|].
  apply (IH _ _ _ Hrun). lia.
Qed.

(** The number of rounds after which a loop with the timeout [wait_] has
    returned, when every sleep takes [delta] microseconds at least. *)
Lemma rounds_cover_timeout (wait_ : Q) (k : nat) (elapsed : Z) :
  (Z.to_nat (Qceiling (wait_ * 1000000) / delta) < k)%nat ->
  0 <= elapsed ->
  Qceiling (wait_ * 1000000) - elapsed <= delta * Z.of_nat k.
Proof.
  intros Hk Hel.
  pose proof (Z.mul_succ_div_gt (Qceiling (wait_ * 1000000)) delta
                delta_positive) as Hdiv.
  assert (Hq : Qceiling (wait_ * 1000000) / delta + 1 <= Z.of_nat k) by lia.
  nia.
Qed.

(** When the clock does not run backwards and every sleep between two
    polls takes at least [delta] > 0 microseconds, [wait] and [wait_vanish]
    return: they have an outcome after at most
    [ceil (timeout in microseconds) / delta] + 2 tests of the timeout, and
    more fuel does not change it. *)
Theorem polling_loops_terminate
    (target : string) (wait_ similarity : Q) (st : State W) :
  let rounds := S (S (Z.to_nat (Qceiling (wait_ * 1000000) / delta))) in
  (exists out,
     forall fuel, (rounds <= fuel)%nat ->
       wait E cfg fuel target wait_ similarity st = Some out) /\
  (exists out,
     forall fuel, (rounds <= fuel)%nat ->
       wait_vanish E cfg fuel target wait_ similarity st = Some out).
Proof.
  intros rounds.
  assert (Hstart :
    snd (fst (started E st)) <= clock (ext (snd (started E st))) /\
    0 <= snd (fst (started E st)) - fst (fst (started E st))).
  { unfold started. simpl.
    destruct (now_reads_clock (ext st)) as [-> H0].
    destruct (now_reads_clock (snd (now E (ext st)))) as [-> H1].
    split; lia. }
  destruct Hstart as [Hahead Hel].
  assert (Hleft :
    Qceiling (wait_ * 1000000)
      - (snd (fst (started E st)) - fst (fst (started E st)))
    <= delta * Z.of_nat (S (Z.to_nat (Qceiling (wait_ * 1000000) / delta)))).
  { apply rounds_cover_timeout; [lia | exact Hel]. }
  split.
  - destruct (wait_loop_returns target wait_ similarity
                (fst (fst (started E st))) _ _ _ Hahead Hleft)
      as (r & st' & Hrun).
    exists (r, st'). intros fuel Hfuel. rewrite wait_start.
    exact (wait_loop_more_fuel _ _ _ _ _ _ _ _ Hrun fuel Hfuel).
  - destruct (wait_vanish_loop_returns target wait_ similarity
                (fst (fst (started E st))) _ _ _ Hahead Hleft)
      as (r & st' & Hrun).
    exists (r, st'). intros fuel Hfuel. rewrite wait_vanish_start.
    exact (wait_vanish_loop_more_fuel _ _ _ _ _ _ _ _ Hrun fuel Hfuel).
Qed.

End Progress.

(** * The cache read back *)

Section CacheRoundTrip.

Variable W : Type.
Variable E : Env W.
Variable cfg : Config W.

(** What the loop of [find_all] returns depends on the state only through
    the origin of the instance. *)
Lemma find_all_loop_origin (target : string) (template : option Gray)
    (m : Matrix) (pairs : list (Z * Z)) (acc : list ImageMatch)
    (s1 s2 : State W) :
  x (self s1) = x (self s2) -> y (self s1) = y (self s2) ->
  fst (find_all_loop cfg target template m pairs acc s1) =
  fst (find_all_loop cfg target template m pairs acc s2).
Proof.
  intros Hx Hy. revert acc.
  induction pairs as [|p pairs IH]; intros acc; simpl; [reflexivity|].
  unfold bind, lift, get_self, ret.
  destruct (len_row0 template); [|reflexivity].
  destruct (len_rows template); [|reflexivity].
  destruct (getitem m (snd p)) as [row|]; [|reflexivity].
  destruct (getitem row (fst p)); [|reflexivity].
  rewrite Hx, Hy. apply IH.
Qed.

(** A search that uses the cache right after an uncached search of the
    same readable template gives the outcome of that search again, and
    takes no capture for it. *)
Theorem cached_search_repeats_uncached_search
    (target : string) (similarity : Q) (st : State W) (t : Gray) :
  imread E target (ext st) = Some t ->
  let st1 := snd (_match_template E target None false st) in
  imread E target (ext st1) = Some t ->
  snd (find E cfg target similarity false st) = st1 /\
  snd (find_all E cfg target similarity false st) = st1 /\
  snd (exists_ E target similarity false st) = st1 /\
  fst (find E cfg target similarity true st1) =
    fst (find E cfg target similarity false st) /\
  fst (find_all E cfg target similarity true st1) =
    fst (find_all E cfg target similarity false st) /\
  fst (exists_ E target similarity true st1) =
    fst (exists_ E target similarity false st) /\
  snd (find E cfg target similarity true st1)
    = logged (EvImread target) st1.
Proof.
  intros Hread st1 Hread1.
  set (g := fresh_capture E st).
  set (r := cv_result (matchTemplate E g t)).
  assert (Hstep :
    _match_template E target (Some t) false (logged (EvImread target) st) =
    (r, refreshed E (logged (EvImread target) st)))
    by (rewrite match_template_loaded; reflexivity).
  assert (Hst1 : st1 = refreshed E (logged (EvImread target) st)).
  { unfold st1. rewrite match_template_unloaded, Hread, Hstep. reflexivity. }
  assert (Hstep1 :
    _match_template E target (Some t) true (logged (EvImread target) st1) =
    (r, logged (EvImread target) st1)).
  { rewrite match_template_loaded. rewrite Hst1. reflexivity. }
  pose proof (searches_end_with_step W E cfg target similarity false st t
                Hread) as Hend.
  rewrite Hstep in Hend. simpl in Hend. rewrite <- Hst1 in Hend.
  destruct Hend as (Hend1 & Hend2 & Hend3).
  pose proof (searches_end_with_step W E cfg target similarity true st1 t
                Hread1) as Hend'.
  rewrite Hstep1 in Hend'. simpl in Hend'.
  repeat split; auto; try apply Hend'.
  - rewrite (find_loaded W E cfg _ similarity _ _ _ _ _ Hread Hstep).
    rewrite (find_loaded W E cfg _ similarity _ _ _ _ _ Hread1 Hstep1).
    rewrite Hst1. destruct r as [m|e]; [|reflexivity].
    destruct (Qltb (max_val m) similarity); [reflexivity|].
    destruct (len_row0 (Some t)); reflexivity.
  - unfold find_all, cv2_imread, bind, call. simpl.
    rewrite Hread, Hread1.
    change (mkState (self st) (ext st) (EvImread target :: trace st))
      with (logged (EvImread target) st).
    change (mkState (self st1) (ext st1) (EvImread target :: trace st1))
      with (logged (EvImread target) st1).
    rewrite Hstep, Hstep1. destruct r as [m|e]; [|reflexivity].
    apply find_all_loop_origin; rewrite Hst1; reflexivity.
  - rewrite !exists_unfold, !match_template_unloaded, Hread, Hread1.
    rewrite Hstep, Hstep1. destruct r; reflexivity.
Qed.

End CacheRoundTrip.

(** * Runs of the further properties on the concrete world *)

Lemma matches_name_target_and_reach_threshold_witness :
  exists s,
    ident (Match Demo.cfg "button.png" 2 1 2 2 (9 # 10))
      = Some ("button.png"%string, s) /\
    (9 # 10 <= s)%Q.
Proof.
  apply (proj1 (matches_name_target_and_reach_threshold Demo.Desk Demo.env
                  Demo.cfg "button.png" (9 # 10))
           false Demo.st0 Demo.button_done).
  reflexivity.
Defined.

Lemma find_all_grows_as_threshold_falls_witness :
  incl (Demo.found_all (9 # 10)) (Demo.found_all (1 # 2)) /\
  (List.length (Demo.found_all (9 # 10))
     <= List.length (Demo.found_all (1 # 2)))%nat.
Proof.
  apply (find_all_grows_as_threshold_falls Demo.Desk Demo.env Demo.cfg
           "button.png" (1 # 2) (9 # 10) false Demo.st0
           Demo.button_done Demo.button_done).
  - discriminate.
  - reflexivity.
  - reflexivity.
Defined.

Lemma find_is_best_of_find_all_witness :
  exists l,
    find_all Demo.env Demo.cfg "button.png" (1 # 2) false Demo.st0
      = (Ok l, Demo.button_done) /\
    (fst (find Demo.env Demo.cfg "button.png" (1 # 2) false Demo.st0)
       = Raise FindFailed <-> l = []) /\
    (fst (exists_ Demo.env "button.png" (1 # 2) false Demo.st0) = Ok false
       <-> l = []) /\
    (forall found,
       fst (find Demo.env Demo.cfg "button.png" (1 # 2) false Demo.st0)
         = Ok found ->
       In found l /\
       forall other no so nf sf,
         In other l -> ident other = Some (no, so) ->
         ident found = Some (nf, sf) -> (so <= sf)%Q).
Proof.
  apply (find_is_best_of_find_all Demo.Desk Demo.env Demo.cfg
           "button.png" (1 # 2) false Demo.st0 Demo.button_done
           Demo.button Demo.button_scores).
  - exists (round_single (1 # 2)). split; reflexivity.
  - reflexivity.
  - discriminate.
  - reflexivity.
  - discriminate.
Defined.

Lemma cached_search_reuses_held_capture_witness :
  _match_template Demo.env "button.png" None true Demo.button_done =
    (cv_result (matchTemplate Demo.env (fresh_capture Demo.env Demo.st0)
                  Demo.button),
     logged (EvImread "button.png") Demo.button_done) /\
  snd (find Demo.env Demo.cfg "button.png" (9 # 10) true Demo.button_done)
    = logged (EvImread "button.png") Demo.button_done /\
  snd (find_all Demo.env Demo.cfg "button.png" (9 # 10) true Demo.button_done)
    = logged (EvImread "button.png") Demo.button_done /\
  snd (exists_ Demo.env "button.png" (9 # 10) true Demo.button_done)
    = logged (EvImread "button.png") Demo.button_done.
Proof.
  apply (cached_search_reuses_held_capture Demo.Desk Demo.env Demo.cfg
           "button.png" (9 # 10) Demo.button_done Demo.button
           (fresh_capture Demo.env Demo.st0)).
  - reflexivity.
  - reflexivity.
Defined.

Lemma shift_region_keeps_capture_witness :
  trace (snd (find Demo.env Demo.cfg "button.png" (9 # 10) false
                (snd (shift_region 10 20 Demo.button_done)))) =
    EvScreenshot 10 20 4 3 :: EvImread "button.png"
      :: trace Demo.button_done /\
  exists maxRow maxCol found,
    cell Demo.button_scores maxRow maxCol
      = Some (max_val Demo.button_scores) /\
    find Demo.env Demo.cfg "button.png" (9 # 10) true
         (snd (shift_region 10 20 Demo.button_done)) =
      (Ok found,
       logged (EvImread "button.png")
              (snd (shift_region 10 20 Demo.button_done))) /\
    x found = 10 + maxCol /\ y found = 20 + maxRow /\
    w found = width Demo.button /\ h found = height Demo.button /\
    ident found = Some ("button.png"%string, max_val Demo.button_scores).
Proof.
  destruct (shift_region_keeps_capture Demo.Desk Demo.env Demo.cfg 10 20
              "button.png" (9 # 10) Demo.button_done Demo.button eq_refl)
    as (_ & _ & _ & Huncached & Hcached).
  split; [exact Huncached|].
  apply (Hcached (fresh_capture Demo.env Demo.st0) Demo.button_scores).
  - reflexivity.
  - reflexivity.
  - discriminate.
  - discriminate.
  - apply Qle_bool_iff. reflexivity.
Defined.

Lemma hover_point_within_rectangle_witness :
  ~ In EvClick (trace (snd (hover Demo.env Demo.cfg Demo.st0))).
Proof.
  destruct (hover_point_within_rectangle Demo.Desk Demo.env Demo.cfg Demo.st0)
    as (pre & Htrace & Hnoclick & _).
  change (trace Demo.st0) with (@nil Event) in Htrace.
  rewrite app_nil_r in Htrace. rewrite Htrace. exact Hnoclick.
Defined.

Lemma click_override_replaces_pointer_calls_witness :
  ~ In EvClick
      (trace (snd (click Demo.env Demo.cfg_hooked Demo.pad1 Demo.st0))).
Proof.
  destruct (click_override_replaces_pointer_calls Demo.Desk Demo.env
              Demo.cfg_hooked Demo.pad1 Demo.st0)
    as (pre & Htrace & Hoverride & _).
  change (trace Demo.st0) with (@nil Event) in Htrace.
  rewrite app_nil_r in Htrace. rewrite Htrace.
  apply Hoverride. discriminate.
Defined.

Lemma pointer_on_empty_range_raises_witness :
  hover Demo.env Demo.cfg Demo.st_negative
    = (Raise ValueError, Demo.st_negative).
Proof.
  apply (proj1 (pointer_on_empty_range_raises Demo.Desk Demo.env Demo.cfg
                  Demo.st_negative)).
  simpl. lia.
Defined.

Lemma searches_change_only_the_capture_witness :
  same_but_capture Demo.screen_region (self Demo.button_done).
Proof.
  apply (proj1 (proj1 (searches_change_only_the_capture Demo.Desk Demo.env
                         Demo.cfg "button.png" (9 # 10) Demo.st0) false)).
Defined.

Lemma wait_vanish_first_round_witness :
  wait_vanish Demo.env Demo.cfg 1 "button.png" 0 (9 # 10) Demo.st0 =
    Some (Raise VanishFailed, snd (started Demo.env Demo.st0)) /\
  exists st',
    wait_vanish Demo.env Demo.cfg 1 "button.png" 1 (95 # 100) Demo.st0 =
      Some (Ok true, st') /\
    exists pre,
      trace st' = pre ++ trace Demo.st0 /\
      forall d, ~ In (EvSleep d) pre.
Proof.
  split.
  - apply (proj1 (wait_vanish_first_round Demo.Desk Demo.env Demo.cfg
                    "button.png" 0 (9 # 10) Demo.st0)).
    discriminate.
  - apply (proj2 (wait_vanish_first_round Demo.Desk Demo.env Demo.cfg
                    "button.png" 1 (95 # 100) Demo.st0)).
    + reflexivity.
    + reflexivity.
Defined.

Lemma polling_loops_terminate_witness :
  (exists out,
     forall fuel, (22 <= fuel)%nat ->
       wait Demo.env Demo.cfg fuel "button.png" 1 (95 # 100) Demo.st0
         = Some out) /\
  (exists out,
     forall fuel, (22 <= fuel)%nat ->
       wait_vanish Demo.env Demo.cfg fuel "button.png" 1 (95 # 100) Demo.st0
         = Some out).
Proof.
  refine (polling_loops_terminate Demo.Desk Demo.env Demo.cfg Demo.clock 50000
            _ _ _ _ "button.png" 1 (95 # 100) Demo.st0).
  - lia.
  - intros e. simpl. lia.
  - intros e. simpl. change (1000000 / 20) with 50000. lia.
  - intros rx ry rw rh e. simpl. lia.
Defined.

Lemma cached_search_repeats_uncached_search_witness :
  fst (find Demo.env Demo.cfg "button.png" (9 # 10) true Demo.button_done) =
    fst (find Demo.env Demo.cfg "button.png" (9 # 10) false Demo.st0).
Proof.
  apply (cached_search_repeats_uncached_search Demo.Desk Demo.env Demo.cfg
           "button.png" (9 # 10) Demo.st0 Demo.button).
  - reflexivity.
  - reflexivity.
Defined.

(** * Sleeps and attempts of wait *)

Section Pacing.

Variable W : Type.
Variable E : Env W.
Variable cfg : Config W.

Lemma count_app (kind : Event -> bool) (a b : list Event) :
  count kind (a ++ b) = (count kind a + count kind b)%nat.
Proof. unfold count. rewrite filter_app, length_app. reflexivity. Qed.

(** An attempt of [find] that ends with a Match or with FindFailed has
    read the template once and has not slept. *)
Lemma find_attempt_trace (target : string) (similarity : Q) (cached : bool)
    (st st' : State W) (r : Res ImageMatch) :
  find E cfg target similarity cached st = (r, st') ->
  (exists found, r = Ok found) \/ r = Raise FindFailed ->
  exists pre,
    trace st' = pre ++ trace st /\
    count is_imread pre = 1%nat /\ count is_sleep pre = 0%nat /\
    count is_now pre = 0%nat /\ (forall d, ~ In (EvSleep d) pre).
Proof.
  intros Hfind Hr.
  destruct (imread E target (ext st)) as [t|] eqn:Hread.
  - destruct (searches_end_with_step W E cfg target similarity cached st t
                Hread) as (Hend & _).
    rewrite Hfind in Hend. simpl in Hend. subst st'.
    rewrite match_template_loaded.
    destruct (negb cached || _).
    + eexists [_; EvImread target]. split; [reflexivity|].
      repeat split. intros d [H | [H | []]]; discriminate.
    + exists [EvImread target]. split.
      * unfold cv2_matchTemplate, raise, lift.
        destruct (_captured _); reflexivity.
      * repeat split. intros d [H | []]; discriminate.
  - rewrite (find_unreadable W E cfg _ _ _ _ Hread) in Hfind.
    inversion Hfind; subst. destruct Hr as [[found Hr] | Hr]; discriminate.
Qed.

Lemma wait_loop_pacing (fuel : nat) (target : string) (wait_ similarity : Q)
    (start : Z) :
  forall now_ st r st',
    wait_loop E cfg fuel target wait_ similarity start now_ st
      = Some (r, st') ->
    (exists found, r = Ok found) \/ r = Raise FindFailed ->
    exists pre,
      trace st' = pre ++ trace st /\
      (forall d, In (EvSleep d) pre -> d = SCAN_RATE cfg) /\
      count is_now pre = count is_sleep pre /\
      count is_imread pre =
        (count is_sleep pre + match r with Ok _ => 1 | Raise _ => 0 end)%nat.
Proof.
  induction fuel as [|fuel IH]; intros now_ st r st'; [discriminate|].
  rewrite wait_loop_step. destruct (Qltb _ wait_).
  - destruct (find E cfg target similarity false st) as [[found|e] st1]
      eqn:Hf.
    + intros Heq _. inversion Heq; subst.
      destruct (find_attempt_trace _ _ _ _ _ _ Hf) as
        (pre & Htr & Hreads & Hsleeps & Hnows & Hno); [eauto|].
      exists pre. split; [exact Htr|]. split.
      * intros d Hin. exfalso. exact (Hno d Hin).
      * rewrite Hreads, Hsleeps, Hnows. split; reflexivity.
    + destruct e;
        try (intros Heq [[found Hr] | Hr]; inversion Heq; subst;
             discriminate).
      destruct (Qltb (SCAN_RATE cfg) 0).
      { intros Heq [[found Hr] | Hr]; inversion Heq; subst; discriminate. }
      intros Hloop Hr.
      destruct (find_attempt_trace _ _ _ _ _ _ Hf) as
        (pre & Htr & Hreads & Hsleeps & Hnows & Hno); [auto|].
      destruct (IH _ _ _ _ Hloop Hr) as (pre2 & Htr2 & Hrate & Hn2 & Hr2).
      simpl in Htr2. rewrite Htr in Htr2.
      exists (pre2 ++ [EvNow; EvSleep (SCAN_RATE cfg)] ++ pre). split.
      { rewrite Htr2, <- !app_assoc. reflexivity. }
      split.
      { intros d Hin. apply in_app_or in Hin. destruct Hin as [Hin | Hin];
          [exact (Hrate d Hin)|].
        destruct Hin as [H | [H | Hin]]; try discriminate.
        - inversion H. reflexivity.
        - exfalso. exact (Hno d Hin). }
      rewrite !count_app, Hreads, Hsleeps, Hnows, Hn2, Hr2.
      unfold count. simpl. split; lia.
  - intros Heq _. inversion Heq; subst. exists []. split; [reflexivity|].
    split; [intros d []|]. split; reflexivity.
Qed.

(** [wait] sleeps between attempts and nowhere else: when it ends with a
    Match it has made one attempt more than it has slept, when it ends
    with FindFailed it has slept after every attempt; every sleep lasts
    [SCAN_RATE], and the clock is read twice at the start and once after
    every sleep. *)
Theorem wait_sleeps_between_attempts
    (fuel : nat) (target : string) (wait_ similarity : Q)
    (st st' : State W) (r : Res ImageMatch) :
  wait E cfg fuel target wait_ similarity st = Some (r, st') ->
  (exists found, r = Ok found) \/ r = Raise FindFailed ->
  exists pre,
    trace st' = pre ++ trace st /\
    (forall d, In (EvSleep d) pre -> d = SCAN_RATE cfg) /\
    count is_now pre = (count is_sleep pre + 2)%nat /\
    count is_imread pre = (count is_sleep pre + match r with Ok _ => 1 | Raise _ => 0 end)%nat.
Proof.
  rewrite wait_start. intros Hloop Hr.
  destruct (wait_loop_pacing _ _ _ _ _ _ _ _ _ Hloop Hr)
    as (pre & Htr & Hrate & Hnows & Hreads).
  exists (pre ++ [EvNow; EvNow]). split.
  { rewrite Htr, <- app_assoc. reflexivity. }
  split.
  { intros d Hin. apply in_app_or in Hin. destruct Hin as [Hin | Hin];
      [exact (Hrate d Hin)|].
    destruct Hin as [H | [H | []]]; discriminate. }
  rewrite !count_app, Hnows, Hreads. unfold count. simpl. split; lia.
Qed.

End Pacing.

Lemma wait_sleeps_between_attempts_witness :
  exists r st' pre,
    wait Demo.env Demo.cfg 50 "button.png" (1 # 10) (95 # 100) Demo.st0
      = Some (r, st') /\
    r = Raise FindFailed /\
    trace st' = pre ++ trace Demo.st0 /\
    count is_now pre = (count is_sleep pre + 2)%nat /\
    count is_imread pre = (count is_sleep pre + 0)%nat.
Proof.
  destruct (wait Demo.env Demo.cfg 50 "button.png" (1 # 10) (95 # 100)
              Demo.st0) as [[r st']|] eqn:Hw;
    [|vm_compute in Hw; discriminate].
  assert (Hr : r = Raise FindFailed).
  { pose proof Hw as Hw'. vm_compute in Hw'. inversion Hw'. reflexivity. }
  subst r.
  destruct (wait_sleeps_between_attempts Demo.Desk Demo.env Demo.cfg 50
              "button.png" (1 # 10) (95 # 100) Demo.st0 st'
              (Raise FindFailed) Hw (or_intror eq_refl))
    as (pre & Htr & _ & Hnows & Hreads).
  exists (Raise FindFailed), st', pre. auto.
Defined.

(** * The mouse speed of an instance *)

Section InstanceSpeed.

Variable W : Type.
Variable E : Env W.
Variable cfg : Config W.





End InstanceSpeed.


Lemma find_all_returns_cells_passing_cast_threshold_witness :
  exists l,
    find_all Demo.env Demo.cfg "button.png" (1 # 2) false Demo.st0 =
      (Ok l, Demo.button_done) /\
    (forall found,
       In found l <->
       exists r c s,
         cell Demo.button_scores r c = Some s /\
         ge_float32 s (to_float32 (1 # 2)) = true /\
         found = Match Demo.cfg "button.png" (0 + c) (0 + r)
                   (width Demo.button) (height Demo.button) s /\
         x found = 0 + c /\ y found = 0 + r /\
         w found = width Demo.button /\ h found = height Demo.button /\
         ident found = Some ("button.png"%string, s)) /\
    StronglySorted scan_before l /\
    ((forall r c s, cell Demo.button_scores r c = Some s ->
                    ge_float32 s (to_float32 (1 # 2)) = false) ->
     l = []).
Proof.
  apply (find_all_returns_cells_passing_cast_threshold Demo.Desk Demo.env
           Demo.cfg "button.png" (1 # 2) false Demo.st0
           Demo.button_done Demo.button Demo.button_scores).
  - reflexivity.
  - discriminate.
  - reflexivity.
Defined.
